(** * scripts/download-sample-pdfs.py: a shallow embedding and its properties

    The script reads a CSV table of articles, picks journals, downloads a
    bounded sample of PDFs and records the outcome of every attempt in the
    [downloaded] column of the table.

    Conventions of the embedding.
    - A Python [str] is a Rocq [string] holding the UTF-8 bytes of the text.
      The string operations the script uses ([startswith], slicing,
      [replace] of an ASCII character, [quote]) act on the UTF-8 bytes the
      same way as on the code points, since UTF-8 never uses an ASCII byte
      inside a multi-byte sequence.
    - A [dict] is a [gmap], a [set] a [gset], a list updated in place a
      [list] with stdpp's insert.
    - Functions of Python's standard library ([urllib.parse.quote],
      [csv.DictReader], [csv.DictWriter]) are modelled after CPython's
      sources; the network and the file system are explicit parameters. *)

From Stdlib Require Import Ascii String Sorted.
From stdpp Require Import gmap strings list fin_maps.

Local Open Scope string_scope.

(** ** Strings *)

Module Str.

Fixpoint chars (s : string) : list ascii :=
  match s with
  | EmptyString => []
  | String c r => c :: chars r
  end.

(** [x in s] for a one-character [x]. *)
Definition mem (c : ascii) (s : string) : bool :=
  existsb (Ascii.eqb c) (chars s).

(** [s.startswith(p)] *)
Fixpoint startswith (s p : string) : bool :=
  match p, s with
  | EmptyString, _ => true
  | String a p', String b s' => Ascii.eqb a b && startswith s' p'
  | String _ _, EmptyString => false
  end.

(** [s[n:]] *)
Fixpoint slice_from (n : nat) (s : string) : string :=
  match n, s with
  | 0, _ => s
  | S n', String _ s' => slice_from n' s'
  | S _, EmptyString => EmptyString
  end.

(** [s.replace(old, new)] for a one-character [old]. *)
Fixpoint replace (old : ascii) (new : string) (s : string) : string :=
  match s with
  | EmptyString => EmptyString
  | String c r =>
      if Ascii.eqb c old then new ++ replace old new r
      else String c (replace old new r)
  end.

(** [''.join(f(c) for c in s)] *)
Fixpoint join_map (f : ascii -> string) (s : string) : string :=
  match s with
  | EmptyString => EmptyString
  | String c r => f c ++ join_map f r
  end.

Definition forall_chars (p : ascii -> bool) (s : string) : bool :=
  forallb p (chars s).

(** [s.lower()], on the ASCII letters.  No code point outside ASCII
    lowers to one of the letters of ['yes'] or ['unavailable'], so the
    comparisons of the script are decided by the ASCII part alone. *)
Definition lower_char (c : ascii) : ascii :=
  let n := nat_of_ascii c in
  if (65 <=? n)%nat && (n <=? 90)%nat then ascii_of_nat (n + 32) else c.

Fixpoint lower (s : string) : string :=
  match s with
  | EmptyString => EmptyString
  | String c r => String (lower_char c) (lower r)
  end.

End Str.

(** ** urllib.parse.quote *)

Module Urllib.

(** [_ALWAYS_SAFE]: the unreserved characters of RFC 3986. *)
Definition ALWAYS_SAFE : string :=
  "ABCDEFGHIJKLMNOPQRSTUVWXYZabcdefghijklmnopqrstuvwxyz0123456789_.-~".

Definition hexdigits : string := "0123456789ABCDEF".

Definition hex_digit (n : nat) : ascii :=
  match String.get n hexdigits with
  | Some c => c
  | None => "0"%char
  end.

(** ['%{:02X}'.format(b)] *)
Definition format_02X (b : ascii) : string :=
  let n := nat_of_ascii b in
  String "%" (String (hex_digit (n / 16)) (String (hex_digit (n mod 16)) "")).

Definition is_safe (safe : string) (b : ascii) : bool :=
  Str.mem b (ALWAYS_SAFE ++ safe).

(** [_Quoter.__missing__] *)
Definition quoter (safe : string) (b : ascii) : string :=
  if is_safe safe b then String b "" else format_02X b.

(** [quote_from_bytes]: a string made of safe bytes only is returned as
    it is (the [rstrip] shortcut), otherwise every byte goes through the
    quoter. *)
Definition quote (s safe : string) : string :=
  if Str.forall_chars (is_safe safe) s then s
  else Str.join_map (quoter safe) s.

End Urllib.

(** ** encode_doi_for_filename *)

Definition encode_doi_for_filename (doi : string) : string :=
  let doi :=
    if Str.startswith doi "https://doi.org/" then Str.slice_from 16 doi
    else if Str.startswith doi "http://doi.org/" then Str.slice_from 15 doi
    else doi in
  let doi := Str.replace "/" "__" doi in
  Urllib.quote doi "_-.".

(** ** Python values, exceptions, dictionaries *)

(** The exceptions the script can raise and never catches, apart from the
    ones [download_pdf] handles.  [EnvironmentError] stands for what
    [open] and the tokenizer of [csv.reader] raise on a file that cannot be
    read as delimited text. *)
Inductive exn : Type :=
| KeyError (key : string)
| AttributeError
| TypeError
| ValueError
| EnvironmentError (what : string).

(** A row as [csv.DictReader] builds it: a dict from column names to a
    [str] or [None] (the [restval] of a short row), and, for a row longer
    than the header, the surplus fields under the key [None] ([restkey]). *)
Record Row : Type := mkRow {
  fields : gmap string (option string);
  restkey : option (list string)
}.

(** [row[key]] *)
Definition getitem (row : Row) (key : string) : exn + option string :=
  match fields row !! key with
  | Some v => inr v
  | None => inl (KeyError key)
  end.

(** [row.get(key, default)] *)
Definition get (row : Row) (key : string) (default : option string) : option string :=
  match fields row !! key with
  | Some v => v
  | None => default
  end.

(** [row[key] = value] *)
Definition setitem (row : Row) (key : string) (value : string) : Row :=
  mkRow (<[key := Some value]> (fields row)) (restkey row).

(** [v.lower()]: [None] has no such method. *)
Definition py_lower (v : option string) : exn + string :=
  match v with
  | Some s => inr (Str.lower s)
  | None => inl AttributeError
  end.

(** [defaultdict(int)[k]], the value read. *)
Definition count_of {K} `{Countable K} (m : gmap K nat) (k : K) : nat :=
  default 0 (m !! k).

(** [sum(m.values())] *)
Definition sum_values {K} `{Countable K} (m : gmap K nat) : nat :=
  map_fold (fun _ v acc => v + acc) 0 m.

(** ** The csv module *)

(** The table file, as the tokenizer of [csv.reader] delivers it: the list
    of its lines, each the list of its fields (a blank line is the empty
    list), or the error raised while reading. *)
Inductive file_content : Type :=
| Unreadable (e : exn)
| Table (lines : list (list string)).

Module Csv.

(** [dict(zip(keys, values))]: a later pair overwrites an earlier one. *)
Fixpoint dict_zip (keys values : list string) (d : gmap string (option string))
  : gmap string (option string) :=
  match keys, values with
  | k :: keys', v :: values' => dict_zip keys' values' (<[k := Some v]> d)
  | _, _ => d
  end.

(** [for key in keys: d[key] = None] *)
Fixpoint fill_restval (keys : list string) (d : gmap string (option string))
  : gmap string (option string) :=
  match keys with
  | [] => d
  | k :: keys' => fill_restval keys' (<[k := None]> d)
  end.

(** [DictReader.fieldnames]: the first line, [None] for an empty file. *)
Definition fieldnames (lines : list (list string)) : option (list string) :=
  head lines.

(** One step of [DictReader.__next__] on a line that is not blank. *)
Definition reader_row (fieldnames line : list string) : Row :=
  let d := dict_zip fieldnames line ∅ in
  let lf := length fieldnames in
  let lr := length line in
  if (lf <? lr)%nat then mkRow d (Some (drop lf line))
  else if (lr <? lf)%nat then mkRow (fill_restval (drop lr fieldnames) d) None
  else mkRow d None.

Definition is_blank (line : list string) : bool :=
  match line with [] => true | _ => false end.

(** The rows [DictReader] yields: the lines after the header, blank
    lines left out. *)
Definition reader_rows (lines : list (list string)) : list Row :=
  match lines with
  | [] => []
  | header :: data =>
      map (reader_row header) (filter (fun l => negb (is_blank l)) data)
  end.

(** [DictWriter._dict_to_list] with [extrasaction='raise'] and
    [restval='']; the writer prints [None] as the empty field. *)
Definition dict_to_list (fieldnames : list string) (row : Row) : exn + list string :=
  if bool_decide (restkey row = None ∧ dom (fields row) ⊆ list_to_set fieldnames)
  then inr (map (fun key => default "" (get row key (Some ""))) fieldnames)
  else inl ValueError.

(** [DictWriter.writerows]: the rows are converted and written one by
    one, so the rows before an offending one have reached the file. *)
Fixpoint writerows (fieldnames : list string) (rows : list Row)
  : list (list string) * option exn :=
  match rows with
  | [] => ([], None)
  | row :: rows' =>
      match dict_to_list fieldnames row with
      | inl e => ([], Some e)
      | inr line =>
          let '(lines, r) := writerows fieldnames rows' in (line :: lines, r)
      end
  end.

End Csv.

(** ** read_csv_with_downloaded_column, write_csv *)

Definition read_csv_with_downloaded_column (f : file_content)
  : exn + (list Row * list string) :=
  match f with
  | Unreadable e => inl e
  | Table lines =>
      match Csv.fieldnames lines with
      | None => inl TypeError (* ['downloaded' in None] *)
      | Some fieldnames =>
          let has_downloaded_column := bool_decide ("downloaded" ∈ fieldnames) in
          let fieldnames :=
            if has_downloaded_column then fieldnames
            else (fieldnames ++ ["downloaded"])%list in
          let rows :=
            map (fun row =>
                   if has_downloaded_column then row
                   else setitem row "downloaded" "")
                (Csv.reader_rows lines) in
          inr (rows, fieldnames)
      end
  end.

(** The file is opened for writing (and so emptied), then the header and
    the rows are written; the result is the new content of the file and the
    exception raised, if any. *)
Definition write_csv (rows : list Row) (fieldnames : list string)
  : file_content * option exn :=
  let '(lines, r) := Csv.writerows fieldnames rows in
  (Table (fieldnames :: lines), r).

(** ** Journal statistics and priority *)

Record JournalStat : Type := mkStat { total : nat; downloaded : nat }.

(** A journal is the value of the [journal] column: a [str], or [None] in
    a short row. *)
Definition stat_of (m : gmap (option string) JournalStat) (journal : option string)
  : JournalStat :=
  default (mkStat 0 0) (m !! journal).

Fixpoint get_journal_download_stats_from
    (rows : list Row) (journal_stats : gmap (option string) JournalStat)
  : exn + gmap (option string) JournalStat :=
  match rows with
  | [] => inr journal_stats
  | row :: rows' =>
      match getitem row "journal" with
      | inl e => inl e
      | inr journal =>
          let s := stat_of journal_stats journal in
          let journal_stats := <[journal := mkStat (S (total s)) (downloaded s)]> journal_stats in
          match py_lower (get row "downloaded" (Some "")) with
          | inl e => inl e
          | inr status =>
              let s := stat_of journal_stats journal in
              get_journal_download_stats_from rows'
                (if String.eqb status "yes"
                 then <[journal := mkStat (total s) (S (downloaded s))]> journal_stats
                 else journal_stats)
          end
      end
  end.

Definition get_journal_download_stats (rows : list Row)
  : exn + gmap (option string) JournalStat :=
  get_journal_download_stats_from rows ∅.

(** [a < b] on the sort keys [(downloaded, journal)]: tuples compare at
    the first component where they differ, and [None < 'x'] is a
    [TypeError]. *)
Definition key_lt (a b : nat * option string) : exn + bool :=
  if (a.1 =? b.1)%nat then
    match a.2, b.2 with
    | Some x, Some y => inr (String.ltb x y)
    | None, None => inr false
    | _, _ => inl TypeError
    end
  else inr (a.1 <? b.1)%nat.

Fixpoint insert_by_key (x : nat * option string) (l : list (nat * option string))
  : exn + list (nat * option string) :=
  match l with
  | [] => inr [x]
  | y :: l' =>
      match key_lt x y with
      | inl e => inl e
      | inr true => inr (x :: l)
      | inr false =>
          match insert_by_key x l' with
          | inl e => inl e
          | inr r => inr (y :: r)
          end
      end
  end.

(** [sorted(items, key=...)].  The keys are pairwise different, so the
    result does not depend on the sorting algorithm: it is the one sorted
    arrangement, or a [TypeError] when [None] ties with a [str]. *)
Fixpoint sorted (l : list (nat * option string)) : exn + list (nat * option string) :=
  match l with
  | [] => inr []
  | x :: l' =>
      match sorted l' with
      | inl e => inl e
      | inr s => insert_by_key x s
      end
  end.

Definition get_sorted_journals_by_priority (rows : list Row)
  : exn + list (option string) :=
  match get_journal_download_stats rows with
  | inl e => inl e
  | inr journal_stats =>
      match sorted (map (fun x => (downloaded x.2, x.1)) (map_to_list journal_stats)) with
      | inl e => inl e
      | inr sorted_journals => inr (map snd sorted_journals)
      end
  end.

(** ** download_pdf *)

(** What the network answers to a request. *)
Inductive response : Type :=
| HTTPError (code : nat) (reason : string)
| URLError (reason : string)
| OtherError (what : string) (* a time-out, a malformed URL, a broken read *)
| Body (content : string).

(** The surroundings of a run: the answer of the network to the request
    made for the row of a given index (the loop visits every index once),
    and whether a path can be opened for writing.  The table file is taken
    to be writable throughout. *)
Record Env : Type := mkEnv {
  urlopen : nat -> option string -> response;
  open_wb : string -> bool
}.

(** The files written, the latest first: a later write of a path hides an
    earlier one.  A file that could be opened receives its whole content. *)
Definition Files : Type := list (string * string).

Definition download_pdf (env : Env) (files : Files)
    (url : option string) (output_path : string) (row_index : nat)
  : bool * Files :=
  match urlopen env row_index url with
  | Body content =>
      if negb (Str.startswith content "%PDF") then (false, files)
      else if open_wb env output_path then (true, (output_path, content) :: files)
      else (false, files) (* [except Exception] *)
  | HTTPError _ _ => (false, files)
  | URLError _ => (false, files)
  | OtherError _ => (false, files)
  end.

(** ** Configuration *)

Definition PDF_FOLDER : string := "pdf".
Definition PDFS_PER_JOURNAL : nat := 2.
Definition NUM_JOURNALS : nat := 5.
Definition TOTAL_PDFS : nat := PDFS_PER_JOURNAL * NUM_JOURNALS.

(** [os.path.join(a, b)], POSIX, for a first part without a slash at its
    end. *)
Definition os_path_join (a b : string) : string :=
  if Str.startswith b "/" then b
  else if String.eqb a "" then b
  else a ++ "/" ++ b.

(** ** The download loop of main *)

(** What a run does that can be observed from outside, besides the
    files: the calls of [download_pdf] with their result, and the message
    printed when a journal is added to a full active set. *)
Inductive event : Type :=
| Download (row_index : nat) (url : option string) (output_path : string) (ok : bool)
| AddingJournal (journal : option string).

(** The variables of [main] the loop works on, with the table file and
    the PDF files on disk.  [rows] is the list of row dictionaries, updated
    in place; [trace] has the latest event first. *)
Record State : Type := mkState {
  rows : list Row;
  downloads_successful : nat;
  downloads_per_journal : gmap (option string) nat;
  attempted_per_journal : gmap (option string) nat;
  active_journals : gset (option string);
  csv_file : file_content;
  pdf_files : Files;
  trace : list event
}.

Definition init_state (rows : list Row) (csv : file_content) (pdfs : Files) : State :=
  mkState rows 0 ∅ ∅ ∅ csv pdfs [].

(** How an iteration ends. *)
Inductive flow : Type :=
| Next
| Break
| Raise (e : exn).

(** The test of the [elif]: the active journals, each at its full quota,
    still fall short of the target.  Python's integers are unbounded and
    the difference can be negative, hence [Z]. *)
Definition running_short (st : State) : bool :=
  (Z.of_nat (downloads_successful st)
   + (Z.of_nat (size (active_journals st)) * Z.of_nat PDFS_PER_JOURNAL
      - Z.of_nat (sum_values (downloads_per_journal st)))
   <? Z.of_nat TOTAL_PDFS)%Z.

Definition status_of (row : Row) : option string := get row "downloaded" (Some "").

Section Loop.

Variable env : Env.
Variable fieldnames : list string.
Variable journals_by_priority : list (option string).

(** Lines 205-217: whether the journal of the row joins the active
    set. *)
Definition select_journal (journal : option string) (st : State) : State :=
  if bool_decide (journal ∉ active_journals st) then
    if (size (active_journals st) <? NUM_JOURNALS)%nat then
      if bool_decide (journal ∈ journals_by_priority) then
        mkState (rows st) (downloads_successful st) (downloads_per_journal st)
          (attempted_per_journal st) ({[journal]} ∪ active_journals st)
          (csv_file st) (pdf_files st) (trace st)
      else st
    else if running_short st then
      if bool_decide (journal ∈ journals_by_priority ∧ journal ∉ active_journals st) then
        mkState (rows st) (downloads_successful st) (downloads_per_journal st)
          (attempted_per_journal st) ({[journal]} ∪ active_journals st)
          (csv_file st) (pdf_files st) (AddingJournal journal :: trace st)
      else st
    else st
  else st.

(** Lines 238-253: the download and the bookkeeping after it; the pause
    after a success is left out. *)
Definition attempt (i : nat) (row : Row) (journal url : option string)
    (output_path : string) (st : State) : flow * State :=
  let '(ok, files) := download_pdf env (pdf_files st) url output_path i in
  let tr := Download i url output_path ok :: trace st in
  if ok then
    let rows' := <[i := setitem row "downloaded" "yes"]> (rows st) in
    let '(csv, r) := write_csv rows' fieldnames in
    (match r with Some e => Raise e | None => Next end,
     mkState rows' (S (downloads_successful st))
       (<[journal := S (count_of (downloads_per_journal st) journal)]>
          (downloads_per_journal st))
       (attempted_per_journal st) (active_journals st) csv files tr)
  else
    let rows' := <[i := setitem row "downloaded" "unavailable"]> (rows st) in
    let '(csv, r) := write_csv rows' fieldnames in
    (match r with Some e => Raise e | None => Next end,
     mkState rows' (downloads_successful st) (downloads_per_journal st)
       (attempted_per_journal st) (active_journals st) csv files tr).

(** [downloads_per_journal[journal]], read: a [defaultdict] enters the
    key it is asked for. *)
Definition read_downloads (journal : option string) (st : State) : State :=
  mkState (rows st) (downloads_successful st)
    (<[journal := count_of (downloads_per_journal st) journal]>
       (downloads_per_journal st))
    (attempted_per_journal st) (active_journals st)
    (csv_file st) (pdf_files st) (trace st).

(** [attempted_per_journal[journal] += 1] *)
Definition count_attempt (journal : option string) (st : State) : State :=
  mkState (rows st) (downloads_successful st) (downloads_per_journal st)
    (<[journal := S (count_of (attempted_per_journal st) journal)]>
       (attempted_per_journal st))
    (active_journals st) (csv_file st) (pdf_files st) (trace st).

(** One iteration of [for i, row in enumerate(rows)]. *)
Definition body (i : nat) (st : State) : flow * State :=
  match rows st !! i with
  | None => (Break, st) (* past the end of the list *)
  | Some row =>
    if (TOTAL_PDFS <=? downloads_successful st)%nat then (Break, st) else
    match getitem row "journal" with
    | inl e => (Raise e, st)
    | inr journal =>
    match py_lower (status_of row) with
    | inl e => (Raise e, st)
    | inr download_status =>
    if bool_decide (download_status ∈ ["yes"; "unavailable"]) then (Next, st) else
    let st := select_journal journal st in
    if bool_decide (journal ∉ active_journals st) then (Next, st) else
    let st := read_downloads journal st in
    if (PDFS_PER_JOURNAL <=? count_of (downloads_per_journal st) journal)%nat
    then (Next, st) else
    let st := count_attempt journal st in
    match getitem row "doi" with
    | inl e => (Raise e, st)
    | inr None => (Raise AttributeError, st) (* [None.startswith] *)
    | inr (Some doi) =>
    let encoded_doi := encode_doi_for_filename doi in
    let filename := encoded_doi ++ ".pdf" in
    let output_path := os_path_join PDF_FOLDER filename in
    match getitem row "oa_url" with
    | inl e => (Raise e, st)
    | inr url => attempt i row journal url output_path st
    end end end end
  end.

(** [n] iterations from index [i] on, or fewer when the loop ends
    before. *)
Fixpoint loop (n i : nat) (st : State) : flow * State :=
  match n with
  | 0 => (Next, st)
  | S n' =>
      match body i st with
      | (Next, st') => loop n' (S i) st'
      | r => r
      end
  end.

End Loop.

(** ** main *)

Inductive outcome : Type :=
| Returned (code : nat)
| Uncaught (e : exn).

(** The exit status of the process: [sys.exit(main())], and 1 for a
    traceback. *)
Definition exit_code (o : outcome) : nat :=
  match o with
  | Returned code => code
  | Uncaught _ => 1
  end.

(** [sorted] of journals (or of tuples that begin with them), all
    different: comparing [None] with a [str] is a [TypeError], and a sort
    of two values or more compares each of them with another one. *)
Definition sortable (journals : gset (option string)) : bool :=
  bool_decide (None ∉ journals \/ size journals <= 1).

(** The directory of the PDF files is taken to exist; of the messages
    only the sorts in their arguments matter, for the exceptions they can
    raise. *)
Definition main (env : Env) (csv : file_content) (pdfs : Files) : outcome * State :=
  match read_csv_with_downloaded_column csv with
  | inl e => (Uncaught e, init_state [] csv pdfs)
  | inr (rows0, fieldnames) =>
  match get_journal_download_stats rows0 with
  | inl e => (Uncaught e, init_state rows0 csv pdfs)
  | inr journal_stats =>
  (* [sorted(journal_stats.items())] *)
  if negb (sortable (dom journal_stats))
  then (Uncaught TypeError, init_state rows0 csv pdfs) else
  match get_sorted_journals_by_priority rows0 with
  | inl e => (Uncaught e, init_state rows0 csv pdfs)
  | inr journals_by_priority =>
      match loop env fieldnames journals_by_priority
              (length rows0) 0 (init_state rows0 csv pdfs) with
      | (Raise e, st) => (Uncaught e, st)
      | (_, st) =>
          (* [sorted(active_journals)] *)
          if negb (sortable (active_journals st)) then (Uncaught TypeError, st)
          else if (downloads_successful st <? TOTAL_PDFS)%nat then (Returned 1, st)
          else (Returned 0, st)
      end
  end end end.

(** ** The encoding, as the specification words it *)

(** An ASCII letter or digit. *)
Definition is_alnum (c : ascii) : bool :=
  let n := nat_of_ascii c in
  ((48 <=? n) && (n <=? 57) || (65 <=? n) && (n <=? 90) || (97 <=? n) && (n <=? 122))%nat.

(** The text after the resolver prefix, if the identifier has one. *)
Definition without_resolver (doi : string) : string :=
  if Str.startswith doi "https://doi.org/"
  then Str.slice_from (String.length "https://doi.org/") doi
  else if Str.startswith doi "http://doi.org/"
  then Str.slice_from (String.length "http://doi.org/") doi
  else doi.

(** "Replace every forward slash with [__], then percent-encode every
    character that is not alphanumeric, underscore, hyphen, or period." *)
Definition claimed_char (c : ascii) : string :=
  if Ascii.eqb c "/" then "__"
  else if is_alnum c || Str.mem c "_-." then String c ""
  else Urllib.format_02X c.

Definition claimed_encoding (doi : string) : string :=
  Str.join_map claimed_char (without_resolver doi).

(** What the code does to one character: the tilde is kept as well. *)
Definition encoded_char (c : ascii) : string :=
  if Ascii.eqb c "/" then "__"
  else if is_alnum c || Str.mem c "_-.~" then String c ""
  else Urllib.format_02X c.

(** ** Runs of the loop *)

(** The loop of [main] after [k] iterations (or at its end, if that came
    before), on the rows [rows0]. *)
Definition run (env : Env) (fieldnames : list string)
    (journals_by_priority : list (option string))
    (rows0 : list Row) (csv : file_content) (pdfs : Files) (k : nat) : flow * State :=
  loop env fieldnames journals_by_priority k 0 (init_state rows0 csv pdfs).

(** The rows for which [download_pdf] was called, the latest first. *)
Fixpoint attempted_rows (tr : list event) : list nat :=
  match tr with
  | [] => []
  | Download i _ _ _ :: tr' => i :: attempted_rows tr'
  | AddingJournal _ :: tr' => attempted_rows tr'
  end.

(** The number of successful downloads. *)
Fixpoint successes (tr : list event) : nat :=
  match tr with
  | [] => 0
  | Download _ _ _ true :: tr' => S (successes tr')
  | _ :: tr' => successes tr'
  end.

(** The journals added to a full active set. *)
Fixpoint overflow_journals (tr : list event) : list (option string) :=
  match tr with
  | [] => []
  | AddingJournal journal :: tr' => journal :: overflow_journals tr'
  | Download _ _ _ _ :: tr' => overflow_journals tr'
  end.

(** The status the loop does not touch again: [yes] or [unavailable],
    in any case of the letters. *)
Definition terminal (row : Row) : Prop :=
  exists status, py_lower (status_of row) = inr status /\
                 status ∈ ["yes"; "unavailable"].

Definition unavailable (row : Row) : Prop :=
  py_lower (status_of row) = inr "unavailable".

(** The three values of the status column. *)
Definition valid_status (row : Row) : Prop :=
  status_of row ∈ [Some ""; Some "yes"; Some "unavailable"].

(** A row [DictWriter] accepts. *)
Definition writable (fieldnames : list string) (row : Row) : Prop :=
  restkey row = None /\ dom (fields row) ⊆ list_to_set fieldnames.

(** ** The ways an iteration can go *)

(** The outcome of [attempt], spelled out. *)
Definition attempted (fieldnames : list string) (i : nat) (row : Row)
    (journal url : option string) (output_path : string)
    (ok : bool) (files : Files) (st : State) : flow * State :=
  let rows' := <[i := setitem row "downloaded" (if ok then "yes" else "unavailable")]> (rows st) in
  (match (write_csv rows' fieldnames).2 with Some e => Raise e | None => Next end,
   mkState rows'
     (if ok then S (downloads_successful st) else downloads_successful st)
     (if ok then <[journal := S (count_of (downloads_per_journal st) journal)]>
                   (downloads_per_journal st)
      else downloads_per_journal st)
     (attempted_per_journal st) (active_journals st)
     (write_csv rows' fieldnames).1 files
     (Download i url output_path ok :: trace st)).

(** The paths through the body of the loop, each with what is known on
    it. *)
Inductive iteration (env : Env) (fieldnames : list string)
    (journals_by_priority : list (option string)) (i : nat) (st : State)
  : flow -> State -> Prop :=
| it_break :
    rows st !! i = None \/ TOTAL_PDFS <= downloads_successful st ->
    iteration env fieldnames journals_by_priority i st Break st
| it_raise_early row e :
    rows st !! i = Some row ->
    downloads_successful st < TOTAL_PDFS ->
    iteration env fieldnames journals_by_priority i st (Raise e) st
| it_skip_terminal row :
    rows st !! i = Some row ->
    downloads_successful st < TOTAL_PDFS ->
    terminal row ->
    iteration env fieldnames journals_by_priority i st Next st
| it_skip_inactive row journal :
    rows st !! i = Some row ->
    downloads_successful st < TOTAL_PDFS ->
    getitem row "journal" = inr journal ->
    ~ terminal row ->
    journal ∉ active_journals (select_journal journals_by_priority journal st) ->
    iteration env fieldnames journals_by_priority i st Next
      (select_journal journals_by_priority journal st)
| it_skip_quota row journal :
    rows st !! i = Some row ->
    downloads_successful st < TOTAL_PDFS ->
    getitem row "journal" = inr journal ->
    ~ terminal row ->
    journal ∈ active_journals (select_journal journals_by_priority journal st) ->
    PDFS_PER_JOURNAL <= count_of (downloads_per_journal st) journal ->
    iteration env fieldnames journals_by_priority i st Next
      (read_downloads journal (select_journal journals_by_priority journal st))
| it_raise_late row journal e :
    rows st !! i = Some row ->
    downloads_successful st < TOTAL_PDFS ->
    getitem row "journal" = inr journal ->
    ~ terminal row ->
    journal ∈ active_journals (select_journal journals_by_priority journal st) ->
    count_of (downloads_per_journal st) journal < PDFS_PER_JOURNAL ->
    iteration env fieldnames journals_by_priority i st (Raise e)
      (count_attempt journal
         (read_downloads journal (select_journal journals_by_priority journal st)))
| it_attempt row journal url output_path ok files :
    rows st !! i = Some row ->
    downloads_successful st < TOTAL_PDFS ->
    getitem row "journal" = inr journal ->
    ~ terminal row ->
    journal ∈ active_journals (select_journal journals_by_priority journal st) ->
    count_of (downloads_per_journal st) journal < PDFS_PER_JOURNAL ->
    download_pdf env (pdf_files st) url output_path i = (ok, files) ->
    iteration env fieldnames journals_by_priority i st
      (attempted fieldnames i row journal url output_path ok files
         (count_attempt journal
            (read_downloads journal
               (select_journal journals_by_priority journal st)))).1
      (attempted fieldnames i row journal url output_path ok files
         (count_attempt journal
            (read_downloads journal
               (select_journal journals_by_priority journal st)))).2.

(** ** Sample inputs *)

(** A network that answers every request with a PDF, one that answers
    with a web page, and a file system that accepts every write. *)
Definition helpful_env : Env := mkEnv (fun _ _ => Body "%PDF-1.4") (fun _ => true).
Definition useless_env : Env := mkEnv (fun _ _ => Body "<html>") (fun _ => true).

Definition sample_header : list string := ["journal"; "doi"; "oa_url"; "downloaded"].

Definition sample_line (journal doi status : string) : list string :=
  [journal; doi; "https://example.org/" ++ doi; status].

(** Ten articles of five journals, none downloaded. *)
Definition ten_articles : file_content :=
  Table (sample_header ::
         [sample_line "A" "10.1/a1" ""; sample_line "A" "10.1/a2" "";
          sample_line "B" "10.1/b1" ""; sample_line "B" "10.1/b2" "";
          sample_line "C" "10.1/c1" ""; sample_line "C" "10.1/c2" "";
          sample_line "D" "10.1/d1" ""; sample_line "D" "10.1/d2" "";
          sample_line "E" "10.1/e1" ""; sample_line "E" "10.1/e2" ""]).

(** Three articles of one journal. *)
Definition three_articles : list Row :=
  map (Csv.reader_row sample_header)
      [sample_line "A" "10.1/a1" ""; sample_line "A" "10.1/a2" "";
       sample_line "A" "10.1/a3" ""].

(** A table whose first article was marked by hand, in capitals. *)
Definition marked_by_hand : file_content :=
  Table [sample_header; sample_line "A" "10.1/a1" "YES"; sample_line "B" "10.1/b1" ""].

(** A state no run reaches: five active journals, and counts per journal
    that exceed the total.  It takes the loop into the [elif] branch with a
    test that holds. *)
Definition crowded_state : State :=
  mkState [Csv.reader_row sample_header (sample_line "F" "10.1/f1" "")]
    0 {[Some "A" := 3]} ∅
    {[Some "A"; Some "B"; Some "C"; Some "D"; Some "E"]}
    (Table []) [] [].

(** ** Loading and saving *)

Definition not_blank (line : list string) : bool := negb (Csv.is_blank line).

(** What loading and saving at once leaves in the file. *)
Definition load_save (csv : file_content) : exn + file_content * option exn :=
  match read_csv_with_downloaded_column csv with
  | inl e => inl e
  | inr (rows, fieldnames) => inr (write_csv rows fieldnames)
  end.

(** "The table has no header", at its narrowest: the file has no line at
    all, or its first line is blank. *)
Definition no_header (lines : list (list string)) : Prop :=
  default [] (head lines) = [].

(** ** Further notions: rows, lines, answers of the network *)

(** The characters a file name made by [encode_doi_for_filename] can
    have. *)
Definition filename_char (c : ascii) : bool := is_alnum c || Str.mem c "_-.~%".

(** The row belongs to the journal. *)
Definition in_journal (journal : option string) (row : Row) : Prop :=
  fields row !! "journal" = Some journal.

(** The row counts as downloaded. *)
Definition marked_yes (row : Row) : Prop :=
  Str.lower <$> status_of row = Some "yes".

(** A row the statistics can take in: it has a journal column, and its
    status is not [None]. *)
Definition countable_row (row : Row) : Prop :=
  is_Some (fields row !! "journal") /\ is_Some (status_of row).

(** A row with the name of a journal and a status: no [None] left by a
    short line. *)
Definition named_row (row : Row) : Prop :=
  (exists journal, fields row !! "journal" = Some (Some journal)) /\
  is_Some (status_of row).

#[global] Instance in_journal_dec journal row : Decision (in_journal journal row).
Proof. unfold in_journal. apply _. Defined.

#[global] Instance marked_yes_dec row : Decision (marked_yes row).
Proof. unfold marked_yes. apply _. Defined.

#[global] Instance countable_row_dec row : Decision (countable_row row).
Proof. unfold countable_row. apply _. Defined.

#[global] Instance named_row_dec row : Decision (named_row row).
Proof.
  unfold named_row.
  destruct (fields row !! "journal") as [[journal|]|].
  - destruct (decide (is_Some (status_of row))) as [Hs|Hs].
    + left. split; [by exists journal|done].
    + right. by intros [_ H].
  - right. by intros [[journal H] _].
  - right. by intros [[journal H] _].
Defined.

#[global] Instance terminal_dec row : Decision (terminal row).
Proof.
  unfold terminal. destruct (py_lower (status_of row)) as [e|status].
  - right. by intros (status & H & _).
  - destruct (decide (status ∈ ["yes"; "unavailable"])) as [Hin|Hout].
    + left. by exists status.
    + right. intros (status' & H & Hin). by injection H as <-.
Defined.

#[global] Instance writable_dec fieldnames row : Decision (writable fieldnames row).
Proof. unfold writable. apply _. Defined.

(** The order of the priority list: fewer downloads first, and among
    journals with as many downloads the name that compares smaller. *)
Definition before (a b : nat * option string) : Prop :=
  a.1 < b.1 \/
  (a.1 = b.1 /\ exists x y, a.2 = Some x /\ b.2 = Some y /\ String.ltb x y = true).

(** The line [DictWriter] writes for a row it accepts. *)
Definition written_line (fieldnames : list string) (row : Row) : list string :=
  map (fun key => default "" (get row key (Some ""))) fieldnames.

(** A row with a field for every column, none of them [None], and
    nothing else: what [DictReader] makes of a line as long as the
    header. *)
Definition full_row (fieldnames : list string) (row : Row) : Prop :=
  restkey row = None /\
  (forall key, key ∈ fieldnames -> exists v, fields row !! key = Some (Some v)) /\
  (forall key, key ∉ fieldnames -> fields row !! key = None).

(** The answer of the network is a PDF, by the test of [download_pdf]. *)
Definition is_pdf (r : response) : bool :=
  match r with
  | Body content => Str.startswith content "%PDF"
  | _ => false
  end.

(** The rows of [marked_by_hand]. *)
Definition marked_rows : list Row :=
  Csv.reader_rows [sample_header; sample_line "A" "10.1/a1" "YES"; sample_line "B" "10.1/b1" ""].

(** Rows the second of which comes from a line longer than the header. *)
Definition surplus_rows : list Row :=
  Csv.reader_rows [sample_header; sample_line "A" "10.1/a1" "";
                   (sample_line "B" "10.1/b1" "" ++ ["note"])%list;
                   sample_line "C" "10.1/c1" ""].

(** A table whose articles are all settled. *)
Definition settled : file_content :=
  Table [sample_header; sample_line "A" "10.1/a1" "yes";
         sample_line "B" "10.1/b1" "Unavailable"].

(** * Properties *)

(** A decidable statement, settled by evaluation. *)
Ltac by_computation := apply (bool_decide_unpack _); vm_compute; exact I.

(** ** Strings *)

Lemma append_nil (r : string) : "" ++ r = r.
Proof. reflexivity. Qed.

Lemma append_cons (a : ascii) (p r : string) : String a p ++ r = String a (p ++ r).
Proof. reflexivity. Qed.

Lemma append_assoc (s t u : string) : (s ++ t) ++ u = s ++ (t ++ u).
Proof.
  induction s as [|a s IH]; [done|].
  by rewrite !append_cons, IH.
Qed.

Lemma startswith_app (p r : string) : Str.startswith (p ++ r) p = true.
Proof.
  induction p as [|a p IH]; [rewrite append_nil; by destruct r|].
  rewrite append_cons. simpl. by rewrite Ascii.eqb_refl, IH.
Qed.

Lemma slice_from_app (p r : string) : Str.slice_from (String.length p) (p ++ r) = r.
Proof.
  induction p as [|a p IH]; [rewrite append_nil; by destruct r|].
  rewrite append_cons. simpl. apply IH.
Qed.

Lemma startswith_inv (s p : string) :
  Str.startswith s p = true -> s = p ++ Str.slice_from (String.length p) s.
Proof.
  revert s; induction p as [|a p IH]; intros s H.
  - by destruct s.
  - destruct s as [|b s]; [done|]. simpl in H.
    apply andb_prop in H as [Hab H]. apply Ascii.eqb_eq in Hab as ->.
    rewrite append_cons. simpl. f_equal. by apply IH.
Qed.

(** [startswith] decides whether the string begins with the prefix. *)
Lemma startswith_spec (s p : string) :
  Str.startswith s p = true <-> exists r, s = p ++ r.
Proof.
  split.
  - intros H. eexists. by apply startswith_inv.
  - intros [r ->]. apply startswith_app.
Qed.

Lemma join_map_safe (f : ascii -> string) (p : ascii -> bool) (s : string) :
  (forall c, p c = true -> f c = String c "") ->
  Str.forall_chars p s = true -> Str.join_map f s = s.
Proof.
  intros Hf. unfold Str.forall_chars.
  induction s as [|c s IH]; simpl; [done|].
  intros H. apply andb_prop in H as [Hc H].
  by rewrite (Hf c Hc), IH.
Qed.

(** The shortcut of [quote] is unobservable. *)
Lemma quote_join_map (s safe : string) :
  Urllib.quote s safe = Str.join_map (Urllib.quoter safe) s.
Proof.
  unfold Urllib.quote.
  destruct (Str.forall_chars (Urllib.is_safe safe) s) eqn:E; [|done].
  symmetry. apply (join_map_safe _ (Urllib.is_safe safe)); [|done].
  intros c Hc. unfold Urllib.quoter. by rewrite Hc.
Qed.

Lemma join_map_app (f : ascii -> string) (s t : string) :
  Str.join_map f (s ++ t) = Str.join_map f s ++ Str.join_map f t.
Proof.
  induction s as [|c s IH]; [done|].
  rewrite append_cons. simpl. by rewrite IH, append_assoc.
Qed.

Lemma join_map_replace (f : ascii -> string) (old : ascii) (new s : string) :
  Str.join_map f (Str.replace old new s)
  = Str.join_map (fun c => if Ascii.eqb c old then Str.join_map f new else f c) s.
Proof.
  induction s as [|c s IH]; simpl; [done|].
  destruct (Ascii.eqb c old); simpl.
  - by rewrite join_map_app, IH.
  - by rewrite IH.
Qed.

Lemma join_map_ext (f g : ascii -> string) (s : string) :
  (forall c, f c = g c) -> Str.join_map f s = Str.join_map g s.
Proof. intros H. induction s as [|c s IH]; simpl; [done|]. by rewrite H, IH. Qed.

(** The safe characters of [quote(_, safe='_-.')] are the ASCII letters
    and digits and the four characters [_ - . ~]. *)
Lemma is_safe_charact (c : ascii) :
  Urllib.is_safe "_-." c = is_alnum c || Str.mem c "_-.~".
Proof. by destruct c as [[] [] [] [] [] [] [] []]. Qed.

Lemma encoded_char_charact (c : ascii) :
  (if Ascii.eqb c "/" then Str.join_map (Urllib.quoter "_-.") "__"
   else Urllib.quoter "_-." c) = encoded_char c.
Proof.
  unfold encoded_char, Urllib.quoter. rewrite is_safe_charact.
  by destruct (Ascii.eqb c "/").
Qed.

Lemma encode_remainder (r : string) :
  Urllib.quote (Str.replace "/" "__" r) "_-." = Str.join_map encoded_char r.
Proof.
  rewrite quote_join_map, join_map_replace.
  apply join_map_ext, encoded_char_charact.
Qed.

(** ** encode_doi_for_filename *)

(** C1, as amended.  [encode_doi_for_filename] removes a leading
    [https://doi.org/] or [http://doi.org/] (this spelling only), and then
    rewrites the rest character by character: a slash becomes [__]; an
    ASCII letter or digit, an underscore, a hyphen, a period and also a
    tilde stay; every other byte becomes [%XX] in upper-case hexadecimal.
    The two examples of the specification come out as stated. *)
Theorem encode_doi_for_filename_charact :
  (forall r, encode_doi_for_filename ("https://doi.org/" ++ r) = Str.join_map encoded_char r) /\
  (forall r, encode_doi_for_filename ("http://doi.org/" ++ r) = Str.join_map encoded_char r) /\
  (forall doi,
      (forall r, doi <> "https://doi.org/" ++ r) ->
      (forall r, doi <> "http://doi.org/" ++ r) ->
      encode_doi_for_filename doi = Str.join_map encoded_char doi) /\
  (forall c, encoded_char c = String c "" <->
             is_alnum c = true \/ c = "_"%char \/ c = "-"%char \/ c = "."%char \/ c = "~"%char) /\
  encode_doi_for_filename "https://doi.org/10.1/a b" = "10.1__a%20b" /\
  encode_doi_for_filename "10.1234/abc.def" = "10.1234__abc.def" /\
  encode_doi_for_filename "HTTPS://doi.org/10.1/a" = "HTTPS%3A____doi.org__10.1__a".
Proof.
  repeat split; try reflexivity.
  - intros r. unfold encode_doi_for_filename.
    rewrite startswith_app.
    change 16 with (String.length "https://doi.org/").
    by rewrite slice_from_app, encode_remainder.
  - intros r. unfold encode_doi_for_filename.
    destruct (Str.startswith ("http://doi.org/" ++ r) "https://doi.org/") eqn:E.
    { apply startswith_inv in E. discriminate E. }
    rewrite startswith_app.
    change 15 with (String.length "http://doi.org/").
    by rewrite slice_from_app, encode_remainder.
  - intros doi H1 H2. unfold encode_doi_for_filename.
    destruct (Str.startswith doi "https://doi.org/") eqn:E1.
    { apply startswith_inv in E1. by destruct (H1 _ E1). }
    destruct (Str.startswith doi "http://doi.org/") eqn:E2.
    { apply startswith_inv in E2. by destruct (H2 _ E2). }
    apply encode_remainder.
  - destruct c as [[] [] [] [] [] [] [] []]; vm_compute; intros H;
      first [ discriminate H | by left | by (right; left)
            | by (right; right; left) | by (right; right; right; left)
            | by (right; right; right; right) ].
  - destruct c as [[] [] [] [] [] [] [] []]; vm_compute; try reflexivity;
      intros [H|[H|[H|[H|H]]]]; discriminate H.
Qed.

Lemma encode_doi_for_filename_charact_witness :
  encode_doi_for_filename "10.1234/abc.def" = Str.join_map encoded_char "10.1234/abc.def".
Proof.
  apply (proj1 (proj2 (proj2 encode_doi_for_filename_charact)));
    intros r H; discriminate H.
Defined.

(** C1, as stated, fails on an identifier with a tilde: [quote] never
    encodes it, whatever [safe] is. *)
Lemma encode_doi_for_filename_tilde :
  encode_doi_for_filename "10.1/~a" = "10.1__~a" /\
  claimed_encoding "10.1/~a" = "10.1__%7Ea" /\
  ~ (forall doi, encode_doi_for_filename doi = claimed_encoding doi).
Proof.
  split; [reflexivity|]. split; [reflexivity|].
  intros H. specialize (H "10.1/~a"). discriminate H.
Qed.

(** ** download_pdf *)

(** C5.  [download_pdf] writes the destination file exactly when it
    returns [True], and then the file holds the whole payload; an HTTP
    error, a URL error, any other failure of the request, and a payload
    that does not begin with [%PDF] give [False] and leave the files as
    they were. *)
Theorem download_pdf_writes_iff_success
    (env : Env) (files : Files) (url : option string) (path : string) (i : nat) :
  let r := download_pdf env files url path i in
  (r.1 = true <-> r.2 <> files) /\
  (r.1 = false <-> r.2 = files) /\
  (r.1 = true ->
     exists content, urlopen env i url = Body content /\
       Str.startswith content "%PDF" = true /\ r.2 = (path, content) :: files) /\
  ((forall content, urlopen env i url <> Body content) -> r = (false, files)) /\
  (forall content, urlopen env i url = Body content ->
     Str.startswith content "%PDF" = false -> r = (false, files)).
Proof.
  assert (Hne : forall (x : string * string) l, x :: l <> l).
  { intros x l H. apply (f_equal length) in H. simpl in H. lia. }
  intros r. subst r. unfold download_pdf.
  destruct (urlopen env i url) as [code reason|reason|what|content] eqn:E;
    [| | |destruct (Str.startswith content "%PDF") eqn:Es;
          [destruct (open_wb env path) eqn:Ew|]];
    cbn; repeat split; intros; try done; try congruence;
    try match goal with
        | H : forall c, Body ?x <> Body c |- _ => by destruct (H x)
        | H : ?x :: ?l = ?l |- _ => by apply Hne in H
        | H : ?l <> ?l |- _ => by destruct H
        end.
  by exists content.
Qed.

Lemma download_pdf_writes_iff_success_witness :
  download_pdf (mkEnv (fun _ _ => Body "<html>") (fun _ => true)) [] (Some "u") "pdf/x.pdf" 0
  = (false, []).
Proof.
  apply (proj2 (proj2 (proj2 (proj2
    (download_pdf_writes_iff_success
       (mkEnv (fun _ _ => Body "<html>") (fun _ => true)) [] (Some "u") "pdf/x.pdf" 0)))))
    with (content := "<html>"); reflexivity.
Defined.

(** ** The csv module *)

Lemma dict_zip_lookup_notin (keys values : list string) d (k : string) :
  k ∉ keys -> Csv.dict_zip keys values d !! k = d !! k.
Proof.
  revert values d; induction keys as [|k' keys IH]; intros values d Hk; [done|].
  apply not_elem_of_cons in Hk as [Hne Hk].
  destruct values as [|v values]; simpl; [done|].
  by rewrite IH, lookup_insert_ne.
Qed.

Lemma dict_zip_lookup (keys values : list string) d (j : nat) (k v : string) :
  NoDup keys -> keys !! j = Some k -> values !! j = Some v ->
  Csv.dict_zip keys values d !! k = Some (Some v).
Proof.
  revert values d j; induction keys as [|k' keys IH]; intros values d j Hnd Hk Hv; [done|].
  apply NoDup_cons in Hnd as [Hnotin Hnd].
  destruct values as [|v' values]; [done|].
  destruct j as [|j]; simpl in *.
  - injection Hk as ->. injection Hv as ->.
    by rewrite dict_zip_lookup_notin, lookup_insert_eq.
  - by apply (IH _ _ j).
Qed.

Lemma dict_zip_dom (keys values : list string) d (k : string) :
  k ∈ dom (Csv.dict_zip keys values d) -> k ∈ keys \/ k ∈ dom d.
Proof.
  revert values d; induction keys as [|k' keys IH]; intros values d Hk; [by right|].
  destruct values as [|v values]; [by right|]. simpl in Hk.
  apply IH in Hk as [Hk|Hk]; [left; by apply list_elem_of_further|].
  rewrite dom_insert, elem_of_union, elem_of_singleton in Hk.
  destruct Hk as [->|Hk]; [left; apply list_elem_of_here|by right].
Qed.

Lemma fill_restval_lookup_notin (keys : list string) d (k : string) :
  k ∉ keys -> Csv.fill_restval keys d !! k = d !! k.
Proof.
  revert d; induction keys as [|k' keys IH]; intros d Hk; [done|].
  apply not_elem_of_cons in Hk as [Hne Hk]. simpl.
  by rewrite IH, lookup_insert_ne.
Qed.

(** In a row read under a header without repeated names, a column holds
    the field at its position in the line. *)
Lemma reader_row_lookup (header line : list string) (j : nat) (k v : string) :
  NoDup header -> header !! j = Some k -> line !! j = Some v ->
  fields (Csv.reader_row header line) !! k = Some (Some v).
Proof.
  intros Hnd Hk Hv. unfold Csv.reader_row.
  destruct (length header <? length line)%nat eqn:E1; simpl.
  { by apply (dict_zip_lookup _ _ _ j). }
  destruct (length line <? length header)%nat eqn:E2; simpl.
  2:{ by apply (dict_zip_lookup _ _ _ j). }
  rewrite fill_restval_lookup_notin; [by apply (dict_zip_lookup _ _ _ j)|].
  intros Hin. apply list_elem_of_lookup in Hin as [j' Hj'].
  rewrite lookup_drop in Hj'.
  apply lookup_lt_Some in Hv.
  assert (length line + j' = j) by (eapply NoDup_lookup; eauto).
  lia.
Qed.

(** A line as long as the header is written back as it was read. *)
Lemma dict_to_list_reader_row (header line : list string) :
  NoDup header -> length line = length header ->
  Csv.dict_to_list header (Csv.reader_row header line) = inr line.
Proof.
  intros Hnd Hlen. unfold Csv.dict_to_list.
  assert (Hrow : Csv.reader_row header line = mkRow (Csv.dict_zip header line ∅) None).
  { unfold Csv.reader_row. rewrite Hlen.
    by rewrite (proj2 (Nat.ltb_ge _ _)) by lia. }
  rewrite bool_decide_eq_true_2.
  2:{ rewrite Hrow. split; [done|]. cbn [fields].
      intros k Hk. apply elem_of_list_to_set.
      apply dict_zip_dom in Hk as [Hk|Hk]; [done|].
      by rewrite dom_empty, elem_of_empty in Hk. }
  f_equal. apply list_eq. intros j. rewrite list_lookup_fmap.
  destruct (header !! j) as [k|] eqn:Hk; simpl.
  - destruct (lookup_lt_is_Some_2 line j) as [v Hv].
    { apply lookup_lt_Some in Hk. lia. }
    rewrite Hv. unfold get.
    by rewrite (reader_row_lookup header line j k v).
  - symmetry. apply lookup_ge_None. apply lookup_ge_None in Hk. lia.
Qed.

Lemma writerows_reader_rows (header : list string) (data : list (list string)) :
  NoDup header ->
  Forall (fun line => length line = length header) data ->
  Csv.writerows header (map (Csv.reader_row header) data) = (data, None).
Proof.
  intros Hnd. induction 1 as [|line data Hlen _ IH]; simpl; [done|].
  by rewrite dict_to_list_reader_row, IH.
Qed.

(** ** read_csv_with_downloaded_column, write_csv *)

(** With the column in the header, the load is what [csv.DictReader]
    delivers. *)
Lemma read_csv_with_column (header : list string) (data : list (list string)) :
  "downloaded" ∈ header ->
  read_csv_with_downloaded_column (Table (header :: data))
  = inr (map (Csv.reader_row header) (filter (fun l => not_blank l = true) data), header).
Proof.
  intros Hin. unfold read_csv_with_downloaded_column. simpl.
  rewrite bool_decide_eq_true_2 by done. rewrite map_id. do 3 f_equal.
  induction data as [|l data IH]; [done|].
  rewrite !filter_cons, IH. unfold not_blank.
  by destruct (Csv.is_blank l).
Qed.



(** C8, as amended.  The load fails in two cases only: the table file
    cannot be read, and then the exception is the one of [open] or of the
    tokenizer; or the file has no line at all, and then it is the
    [TypeError] of ['downloaded' in None].  Whenever the load fails, [main]
    does not handle the exception: the run ends with it and with exit
    status 1, before any download, with no event in the trace and the
    table file and the PDF files as they were. *)
Theorem main_aborts_without_table (env : Env) (csv : file_content) (pdfs : Files) :
  (forall e,
     read_csv_with_downloaded_column csv = inl e
     <-> csv = Unreadable e \/ (csv = Table [] /\ e = TypeError)) /\
  (forall e,
     read_csv_with_downloaded_column csv = inl e ->
     main env csv pdfs = (Uncaught e, init_state [] csv pdfs) /\
     exit_code (main env csv pdfs).1 = 1 /\
     trace (main env csv pdfs).2 = [] /\
     pdf_files (main env csv pdfs).2 = pdfs /\
     csv_file (main env csv pdfs).2 = csv).
Proof.
  split.
  - intros e. split.
    + intros He. destruct csv as [e'|[|header data]].
      * left. by injection He as ->.
      * right. split; [done|]. by injection He as <-.
      * unfold read_csv_with_downloaded_column in He. by cbn in He.
    + by intros [->|[-> ->]].
  - intros e He.
    assert (Hmain : main env csv pdfs = (Uncaught e, init_state [] csv pdfs)).
    { unfold main. by rewrite He. }
    by rewrite Hmain.
Qed.

Lemma main_aborts_without_table_witness :
  main helpful_env (Table []) [] = (Uncaught TypeError, init_state [] (Table []) []) /\
  exit_code (main helpful_env (Table []) []).1 = 1 /\
  trace (main helpful_env (Table []) []).2 = [] /\
  pdf_files (main helpful_env (Table []) []).2 = [] /\
  csv_file (main helpful_env (Table []) []).2 = Table [].
Proof.
  apply (proj2 (main_aborts_without_table helpful_env (Table []) []) TypeError).
  reflexivity.
Defined.

(** C8, as stated, fails on a table without a header: the load takes the
    first line of the file for the header, whatever it holds.  A file
    that begins with a blank line is loaded with [downloaded] as its only
    column, and a file that begins with an article is loaded with the
    fields of that article as its column names; the load raises nothing,
    and [main] returns 1 or ends later with [KeyError].  The code has no
    exception named [FormatError]. *)
Lemma table_without_header_loads :
  read_csv_with_downloaded_column (Table [[]; sample_line "A" "10.1/a1" ""])
  = inr ([mkRow {["downloaded" := Some ""]} (Some (sample_line "A" "10.1/a1" ""))],
         ["downloaded"]) /\
  read_csv_with_downloaded_column (Table [sample_line "A" "10.1/a1" ""])
  = inr ([], (sample_line "A" "10.1/a1" "" ++ ["downloaded"])%list) /\
  (main helpful_env (Table [sample_line "A" "10.1/a1" ""]) []).1 = Returned 1 /\
  (main helpful_env (Table [[]; sample_line "A" "10.1/a1" ""]) []).1
  = Uncaught (KeyError "journal") /\
  ~ (forall lines,
       no_header lines ->
       exists e, read_csv_with_downloaded_column (Table lines) = inl e).
Proof.
  split; [by vm_compute|]. split; [by vm_compute|].
  split; [by vm_compute|]. split; [by vm_compute|].
  intros H. destruct (H [[]] eq_refl) as [e He]. vm_compute in He. discriminate He.
Qed.

(** C9, as amended.  For a table whose header has the [downloaded] column
    and no repeated name, and whose lines are blank or as long as the
    header, loading and saving at once writes the header and the lines
    that are not blank, field for field as they were. *)
Theorem load_save_roundtrip (header : list string) (data : list (list string)) :
  "downloaded" ∈ header ->
  NoDup header ->
  Forall (fun line => line = [] \/ length line = length header) data ->
  exists rows fieldnames,
    read_csv_with_downloaded_column (Table (header :: data)) = inr (rows, fieldnames) /\
    write_csv rows fieldnames
    = (Table (header :: filter (fun l => not_blank l = true) data), None).
Proof.
  intros Hin Hnd Hdata.
  eexists _, _. split; [by apply read_csv_with_column|].
  unfold write_csv. rewrite writerows_reader_rows; [done|done|].
  apply Forall_forall. intros line Hline.
  apply list_elem_of_filter in Hline as [Hnb Hline].
  rewrite Forall_forall in Hdata.
  destruct (Hdata line Hline) as [->|H]; [done|done].
Qed.

Lemma load_save_roundtrip_witness :
  exists rows fieldnames,
    read_csv_with_downloaded_column
      (Table [["journal"; "doi"; "downloaded"]; ["J"; "10.1/a"; "yes"]; []; ["K"; "10.1/b"; ""]])
    = inr (rows, fieldnames) /\
    write_csv rows fieldnames
    = (Table [["journal"; "doi"; "downloaded"]; ["J"; "10.1/a"; "yes"]; ["K"; "10.1/b"; ""]], None).
Proof.
  apply (load_save_roundtrip ["journal"; "doi"; "downloaded"]
           [["J"; "10.1/a"; "yes"]; []; ["K"; "10.1/b"; ""]]).
  - by_computation.
  - by_computation.
  - by_computation.
Defined.

(** C9, as stated, fails on tables that have the [downloaded] column: a
    line shorter than the header is written back with the missing fields
    added; a line longer than the header makes the save raise, which leaves
    the file cut off before that line; under a repeated column name the
    earlier field is lost. *)
Lemma load_save_changes_rows :
  load_save (Table [["journal"; "doi"; "downloaded"]; ["J"; "10.1/a"]])
  = inr (Table [["journal"; "doi"; "downloaded"]; ["J"; "10.1/a"; ""]], None) /\
  load_save (Table [["journal"; "downloaded"]; ["J"; "yes"; "x"]; ["K"; ""]])
  = inr (Table [["journal"; "downloaded"]], Some ValueError) /\
  load_save (Table [["note"; "note"; "downloaded"]; ["a"; "b"; ""]])
  = inr (Table [["note"; "note"; "downloaded"]; ["b"; "b"; ""]], None) /\
  ~ (forall header data rows fieldnames,
       "downloaded" ∈ header ->
       read_csv_with_downloaded_column (Table (header :: data)) = inr (rows, fieldnames) ->
       (write_csv rows fieldnames).1 = Table (header :: data)).
Proof.
  split; [by vm_compute|]. split; [by vm_compute|]. split; [by vm_compute|].
  intros H.
  specialize (H ["journal"; "doi"; "downloaded"] [["J"; "10.1/a"]] _ _
                ltac:(by_computation) eq_refl).
  vm_compute in H. discriminate H.
Qed.

(** ** Sums over a dictionary of counts *)

Lemma sum_values_empty {K} `{Countable K} : sum_values (∅ : gmap K nat) = 0.
Proof. apply map_fold_empty. Qed.

Lemma sum_values_insert_fresh {K} `{Countable K} (m : gmap K nat) (k : K) (v : nat) :
  m !! k = None -> sum_values (<[k := v]> m) = v + sum_values m.
Proof.
  intros Hk. unfold sum_values.
  apply (map_fold_insert_L (fun _ v acc => v + acc)); [|done].
  intros; lia.
Qed.

Lemma sum_values_insert {K} `{Countable K} (m : gmap K nat) (k : K) (v : nat) :
  sum_values (<[k := v]> m) + count_of m k = sum_values m + v.
Proof.
  unfold count_of. destruct (m !! k) as [x|] eqn:Hk; simpl.
  - rewrite <-(insert_delete_eq m).
    rewrite <-(insert_delete_id m k x) at 2 by done.
    rewrite !sum_values_insert_fresh by apply lookup_delete_eq. lia.
  - rewrite sum_values_insert_fresh by done. lia.
Qed.

(** ** The loop, one iteration at a time *)

Section LoopFacts.

Variable env : Env.
Variable fieldnames : list string.
Variable journals_by_priority : list (option string).

Local Abbreviation select := (select_journal journals_by_priority).
Local Abbreviation body_ := (body env fieldnames journals_by_priority).
Local Abbreviation loop_ := (loop env fieldnames journals_by_priority).
Local Abbreviation iteration_ := (iteration env fieldnames journals_by_priority).

Lemma attempt_attempted i row journal url output_path st :
  attempt env fieldnames i row journal url output_path st
  = attempted fieldnames i row journal url output_path
      (download_pdf env (pdf_files st) url output_path i).1
      (download_pdf env (pdf_files st) url output_path i).2 st.
Proof.
  unfold attempt, attempted.
  destruct (download_pdf env (pdf_files st) url output_path i) as [[] files]; simpl;
    by destruct (write_csv _ _) as [csv [e|]].
Qed.

Lemma py_lower_terminal row status :
  py_lower (status_of row) = inr status ->
  bool_decide (status ∈ ["yes"; "unavailable"]) = true -> terminal row.
Proof. intros H Hb. exists status. split; [done|by apply bool_decide_eq_true in Hb]. Qed.

Lemma py_lower_not_terminal row status :
  py_lower (status_of row) = inr status ->
  bool_decide (status ∈ ["yes"; "unavailable"]) = false -> ~ terminal row.
Proof.
  intros H Hb [status' [H' Hin]]. rewrite H in H'. injection H' as <-.
  apply bool_decide_eq_false in Hb. by destruct Hb.
Qed.

Lemma read_downloads_count journal journal' st :
  count_of (downloads_per_journal (read_downloads journal st)) journal'
  = count_of (downloads_per_journal st) journal'.
Proof.
  unfold read_downloads, count_of; simpl.
  destruct (decide (journal = journal')) as [->|Hne].
  - rewrite lookup_insert_eq. by destruct (downloads_per_journal st !! journal').
  - by rewrite lookup_insert_ne.
Qed.

Lemma select_journal_downloads journal st :
  downloads_per_journal (select journal st) = downloads_per_journal st.
Proof. unfold select_journal. by repeat case_match. Qed.

Lemma select_journal_successful journal st :
  downloads_successful (select journal st) = downloads_successful st.
Proof. unfold select_journal. by repeat case_match. Qed.

Lemma select_journal_rows journal st :
  rows (select journal st) = rows st.
Proof. unfold select_journal. by repeat case_match. Qed.

Lemma select_journal_files journal st :
  pdf_files (select journal st) = pdf_files st /\
  csv_file (select journal st) = csv_file st.
Proof. unfold select_journal. by repeat case_match. Qed.

(** Every run of the body follows one of the paths of [iteration]. *)
Lemma body_iteration i st f st' :
  body_ i st = (f, st') -> iteration_ i st f st'.
Proof.
  unfold body. intros H.
  destruct (rows st !! i) as [row|] eqn:Hrow.
  2:{ injection H as <- <-. constructor. by left. }
  destruct (TOTAL_PDFS <=? downloads_successful st)%nat eqn:Hds.
  { injection H as <- <-. constructor. right. by apply Nat.leb_le. }
  apply Nat.leb_gt in Hds.
  destruct (getitem row "journal") as [e|journal] eqn:Hj.
  { injection H as <- <-. by eapply it_raise_early. }
  destruct (py_lower (status_of row)) as [e|status] eqn:Hs.
  { injection H as <- <-. by eapply it_raise_early. }
  destruct (bool_decide (status ∈ ["yes"; "unavailable"])) eqn:Hterm.
  { injection H as <- <-. eapply it_skip_terminal; [done|done|].
    by eapply py_lower_terminal. }
  pose proof (py_lower_not_terminal _ _ Hs Hterm) as Hnt.
  destruct (bool_decide (journal ∉ active_journals (select journal st))) eqn:Hact.
  { injection H as <- <-. eapply it_skip_inactive; [done..|].
    by apply bool_decide_eq_true in Hact. }
  apply bool_decide_eq_false in Hact.
  assert (journal ∈ active_journals (select journal st)) as Hin.
  { destruct (decide (journal ∈ active_journals (select journal st))); done. }
  rewrite read_downloads_count, select_journal_downloads in H.
  destruct (PDFS_PER_JOURNAL <=? count_of (downloads_per_journal st) journal)%nat eqn:Hq.
  { injection H as <- <-. eapply it_skip_quota; [done..|]. by apply Nat.leb_le. }
  apply Nat.leb_gt in Hq.
  destruct (getitem row "doi") as [e|[doi|]] eqn:Hdoi.
  { injection H as <- <-. by eapply it_raise_late. }
  2:{ injection H as <- <-. by eapply it_raise_late. }
  destruct (getitem row "oa_url") as [e|url] eqn:Hurl.
  { injection H as <- <-. by eapply it_raise_late. }
  rewrite attempt_attempted in H.
  rewrite (surjective_pairing (attempted _ _ _ _ _ _ _ _ _)) in H.
  injection H as <- <-.
  eapply it_attempt; try done.
  rewrite <-(proj1 (select_journal_files journal st)).
  apply surjective_pairing.
Qed.

Lemma loop_snoc n i st :
  loop_ (S n) i st
  = match loop_ n i st with
    | (Next, st') => body_ (i + n) st'
    | r => r
    end.
Proof.
  revert i st; induction n as [|n IH]; intros i st.
  - simpl. rewrite Nat.add_0_r. by destruct (body_ i st) as [[] ?].
  - change (loop_ (S (S n)) i st)
      with (match body_ i st with (Next, st') => loop_ (S n) (S i) st' | r => r end).
    change (loop_ (S n) i st)
      with (match body_ i st with (Next, st') => loop_ n (S i) st' | r => r end).
    destruct (body_ i st) as [[] st1]; try done.
    rewrite IH. by replace (S i + n) with (i + S n) by lia.
Qed.


(** What [select_journal] can do to the active set and the trace. *)
Lemma select_journal_cases journal st :
  select journal st = st
  \/ (size (active_journals st) < NUM_JOURNALS /\ (journal ∉ active_journals st) /\
      active_journals (select journal st) = {[journal]} ∪ active_journals st /\
      trace (select journal st) = trace st)
  \/ (NUM_JOURNALS <= size (active_journals st) /\ running_short st = true /\
      (journal ∉ active_journals st) /\
      active_journals (select journal st) = {[journal]} ∪ active_journals st /\
      trace (select journal st) = AddingJournal journal :: trace st).
Proof.
  unfold select_journal.
  destruct (bool_decide (journal ∉ active_journals st)) eqn:Hnew; [|by left].
  apply bool_decide_eq_true in Hnew.
  destruct (size (active_journals st) <? NUM_JOURNALS)%nat eqn:Hsize.
  - apply Nat.ltb_lt in Hsize.
    destruct (bool_decide (journal ∈ journals_by_priority)); [|by left].
    right; left. by simpl.
  - apply Nat.ltb_ge in Hsize.
    destruct (running_short st) eqn:Hshort; [|by left].
    destruct (bool_decide _); [|by left].
    right; right. by simpl.
Qed.

Lemma size_add_new (journal : option string) (A : gset (option string)) :
  journal ∉ A -> size ({[journal]} ∪ A) = S (size A).
Proof.
  intros Hnew. rewrite size_union by set_solver. by rewrite size_singleton.
Qed.

Lemma run_S rows0 csv pdfs k :
  run env fieldnames journals_by_priority rows0 csv pdfs (S k)
  = match run env fieldnames journals_by_priority rows0 csv pdfs k with
    | (Next, st') => body_ k st'
    | r => r
    end.
Proof. unfold run. by rewrite loop_snoc. Qed.

(** From one point of a run to the next: nothing happens, or one
    iteration. *)
Lemma run_step rows0 csv pdfs k :
  let r := run env fieldnames journals_by_priority rows0 csv pdfs in
  r (S k) = r k \/ ((r k).1 = Next /\ iteration_ k (r k).2 (r (S k)).1 (r (S k)).2).
Proof.
  intros r. subst r. rewrite run_S.
  destruct (run env fieldnames journals_by_priority rows0 csv pdfs k) as [[] st];
    [|by left..].
  right. split; [done|]. apply body_iteration. apply surjective_pairing.
Qed.

(** A property that holds at the start and that every iteration keeps
    holds all along a run. *)
Lemma run_invariant (P : nat -> flow -> State -> Prop) rows0 csv pdfs :
  P 0 Next (init_state rows0 csv pdfs) ->
  (forall k st f st', P k Next st -> iteration_ k st f st' -> P (S k) f st') ->
  (forall k f st, P k f st -> P (S k) f st) ->
  forall k,
    P k (run env fieldnames journals_by_priority rows0 csv pdfs k).1
        (run env fieldnames journals_by_priority rows0 csv pdfs k).2.
Proof.
  intros H0 Hstep Hstay k. induction k as [|k IH]; [done|].
  destruct (run_step rows0 csv pdfs k) as [->|[Hnext Hit]]; [by apply Hstay|].
  eapply Hstep; [|done]. by rewrite <-Hnext.
Qed.

Lemma run_state_invariant (P : State -> Prop) rows0 csv pdfs :
  P (init_state rows0 csv pdfs) ->
  (forall k st f st', P st -> iteration_ k st f st' -> P st') ->
  forall k, P (run env fieldnames journals_by_priority rows0 csv pdfs k).2.
Proof.
  intros H0 Hstep. apply (run_invariant (fun _ _ st => P st)); eauto.
Qed.

(** *** The total and the counts per journal *)

Lemma iteration_counts_agree k st f st' :
  downloads_successful st = sum_values (downloads_per_journal st) ->
  iteration_ k st f st' ->
  downloads_successful st' = sum_values (downloads_per_journal st').
Proof.
  intros Hagree Hit.
  assert (Hread : forall journal,
    sum_values (<[journal := count_of (downloads_per_journal st) journal]>
                  (downloads_per_journal st))
    = sum_values (downloads_per_journal st)).
  { intros journal.
    pose proof (sum_values_insert (downloads_per_journal st) journal
                  (count_of (downloads_per_journal st) journal)). lia. }
  destruct Hit; try done.
  - by rewrite select_journal_successful, select_journal_downloads.
  - unfold read_downloads; simpl.
    by rewrite select_journal_successful, select_journal_downloads, Hread.
  - unfold count_attempt, read_downloads; simpl.
    by rewrite select_journal_successful, select_journal_downloads, Hread.
  - unfold attempted, count_attempt, read_downloads; simpl.
    rewrite select_journal_successful, select_journal_downloads.
    destruct ok; [|by rewrite Hread].
    pose proof (sum_values_insert
      (<[journal := count_of (downloads_per_journal st) journal]>
         (downloads_per_journal st)) journal
      (S (count_of (<[journal := count_of (downloads_per_journal st) journal]>
                      (downloads_per_journal st)) journal))) as Hs.
    rewrite insert_insert_eq in Hs. rewrite insert_insert_eq.
    rewrite Hread in Hs. lia.
Qed.

(** Where the totals agree, a full active set is never found short. *)
Lemma counts_agree_not_short st :
  downloads_successful st = sum_values (downloads_per_journal st) ->
  NUM_JOURNALS <= size (active_journals st) ->
  running_short st = false.
Proof.
  intros Hagree Hfull. unfold running_short. apply Z.ltb_ge.
  unfold TOTAL_PDFS. rewrite Hagree. nia.
Qed.

Lemma select_journal_bounded journal st :
  downloads_successful st = sum_values (downloads_per_journal st) ->
  size (active_journals st) <= NUM_JOURNALS ->
  overflow_journals (trace st) = [] ->
  size (active_journals (select journal st)) <= NUM_JOURNALS /\
  overflow_journals (trace (select journal st)) = [].
Proof.
  intros Hagree Hsize Htrace.
  destruct (select_journal_cases journal st)
    as [->|[(Hlt & Hnew & -> & ->)|(Hfull & Hshort & _)]]; [done| |].
  - rewrite size_add_new by done. split; [lia|done].
  - by rewrite counts_agree_not_short in Hshort.
Qed.

Lemma iteration_bounded k st f st' :
  downloads_successful st = sum_values (downloads_per_journal st) ->
  size (active_journals st) <= NUM_JOURNALS ->
  overflow_journals (trace st) = [] ->
  iteration_ k st f st' ->
  size (active_journals st') <= NUM_JOURNALS /\
  overflow_journals (trace st') = [].
Proof.
  intros Hagree Hsize Htrace Hit.
  destruct Hit; try done;
    unfold attempted, count_attempt, read_downloads; simpl;
    by apply select_journal_bounded.
Qed.

(** The three facts together, all along a run. *)
Lemma run_balanced rows0 csv pdfs k :
  let st := (run env fieldnames journals_by_priority rows0 csv pdfs k).2 in
  downloads_successful st = sum_values (downloads_per_journal st) /\
  size (active_journals st) <= NUM_JOURNALS /\
  overflow_journals (trace st) = [].
Proof.
  apply (run_state_invariant (fun st =>
    downloads_successful st = sum_values (downloads_per_journal st) /\
    size (active_journals st) <= NUM_JOURNALS /\
    overflow_journals (trace st) = [])).
  - split; [symmetry; apply sum_values_empty|]. split; [|done].
    unfold init_state; cbn [active_journals]. rewrite size_empty. unfold NUM_JOURNALS. lia.
  - intros k' st f st' (Hagree & Hsize & Htrace) Hit.
    split; [by eapply iteration_counts_agree|by eapply iteration_bounded].
Qed.


(** *** What an iteration changes *)

Lemma count_of_insert (m : gmap (option string) nat) (j j' : option string) (v : nat) :
  count_of (<[j := v]> m) j' = if decide (j' = j) then v else count_of m j'.
Proof.
  unfold count_of. destruct (decide (j' = j)) as [->|Hne].
  - by rewrite lookup_insert_eq.
  - by rewrite lookup_insert_ne.
Qed.

Lemma select_journal_trace journal st :
  attempted_rows (trace (select journal st)) = attempted_rows (trace st) /\
  successes (trace (select journal st)) = successes (trace st).
Proof.
  destruct (select_journal_cases journal st)
    as [Hsame|[(Hlt & Hnew & Hact & Htr)|(Hfull & Hshort & Hnew & Hact & Htr)]].
  - by rewrite Hsame.
  - by rewrite Htr.
  - by rewrite Htr.
Qed.

(** An iteration either leaves the rows, the files, the counts and the
    list of attempts as they are, or it is one attempt on row [k], whose
    status was not terminal, and whose journal was below its quota. *)
Lemma iteration_effect k st f st' :
  iteration_ k st f st' ->
  (rows st' = rows st /\
   attempted_rows (trace st') = attempted_rows (trace st) /\
   successes (trace st') = successes (trace st) /\
   downloads_successful st' = downloads_successful st /\
   pdf_files st' = pdf_files st /\
   csv_file st' = csv_file st /\
   (forall j, count_of (downloads_per_journal st') j
              = count_of (downloads_per_journal st) j) /\
   (f = Break \/ downloads_successful st < TOTAL_PDFS))
  \/
  (exists (row : Row) (journal : option string) (ok : bool),
     rows st !! k = Some row /\
     getitem row "journal" = inr journal /\
     ~ terminal row /\
     downloads_successful st < TOTAL_PDFS /\
     count_of (downloads_per_journal st) journal < PDFS_PER_JOURNAL /\
     rows st' = <[k := setitem row "downloaded" (if ok then "yes" else "unavailable")]>
                  (rows st) /\
     attempted_rows (trace st') = k :: attempted_rows (trace st) /\
     successes (trace st') = (if ok then S (successes (trace st))
                              else successes (trace st)) /\
     downloads_successful st' = (if ok then S (downloads_successful st)
                                 else downloads_successful st) /\
     (forall j, count_of (downloads_per_journal st') j
                = if ok then
                    if decide (j = journal)
                    then S (count_of (downloads_per_journal st) j)
                    else count_of (downloads_per_journal st) j
                  else count_of (downloads_per_journal st) j) /\
     f = match (write_csv (rows st') fieldnames).2 with
         | Some e => Raise e
         | None => Next
         end).
Proof.
  intros Hit.
  destruct Hit as [Hb|row e Hrow Hds|row Hrow Hds Hterm|row journal Hrow Hds Hj Hnt Hact
                  |row journal Hrow Hds Hj Hnt Hact Hq|row journal e Hrow Hds Hj Hnt Hact Hq
                  |row journal url output_path ok files Hrow Hds Hj Hnt Hact Hq Hdl].
  - left. repeat split; try done. by left.
  - left. repeat split; try done. by right.
  - left. repeat split; try done. by right.
  - left. destruct (select_journal_trace journal st) as [Ha Hs].
    destruct (select_journal_files journal st) as [Hp Hc].
    rewrite select_journal_rows, select_journal_successful, select_journal_downloads.
    repeat split; try done. by right.
  - left. destruct (select_journal_trace journal st) as [Ha Hs].
    destruct (select_journal_files journal st) as [Hp Hc].
    unfold read_downloads; cbn [rows trace downloads_successful pdf_files csv_file
                                     downloads_per_journal].
    rewrite select_journal_rows, select_journal_successful, select_journal_downloads.
    repeat split; try done; [|by right].
    intros j. rewrite count_of_insert. by destruct (decide (j = journal)) as [->|].
  - left. destruct (select_journal_trace journal st) as [Ha Hs].
    destruct (select_journal_files journal st) as [Hp Hc].
    unfold count_attempt, read_downloads;
      cbn [rows trace downloads_successful pdf_files csv_file downloads_per_journal].
    rewrite select_journal_rows, select_journal_successful, select_journal_downloads.
    repeat split; try done; [|by right].
    intros j. rewrite count_of_insert. by destruct (decide (j = journal)) as [->|].
  - right. exists row, journal, ok.
    destruct (select_journal_trace journal st) as [Ha Hs].
    unfold attempted, count_attempt, read_downloads;
      cbn [fst snd rows trace downloads_successful pdf_files csv_file
           downloads_per_journal attempted_rows successes].
    rewrite select_journal_rows, select_journal_successful, select_journal_downloads.
    rewrite Ha, Hs.
    repeat split; try done.
    intros j. destruct ok; rewrite !count_of_insert;
      repeat case_decide; congruence.
Qed.


Local Abbreviation run_ := (run env fieldnames journals_by_priority).

(** *** The quota of a journal *)

Lemma run_quota rows0 csv pdfs k j :
  count_of (downloads_per_journal (run_ rows0 csv pdfs k).2) j <= PDFS_PER_JOURNAL.
Proof.
  revert j.
  apply (run_state_invariant (fun st =>
    forall j, count_of (downloads_per_journal st) j <= PDFS_PER_JOURNAL)).
  - intros j. unfold init_state, count_of; cbn [downloads_per_journal].
    rewrite lookup_empty. simpl. lia.
  - intros k' st f st' Hq Hit j.
    destruct (iteration_effect _ _ _ _ Hit)
      as [(_ & _ & _ & _ & _ & _ & Hc & _)
         |(row & journal & ok & _ & _ & _ & _ & Hlt & _ & _ & _ & _ & Hc & _)];
      rewrite Hc; [done|].
    destruct ok; [|done]. case_decide; [subst; lia|done].
Qed.

Lemma run_count_step rows0 csv pdfs k j :
  count_of (downloads_per_journal (run_ rows0 csv pdfs k).2) j
  <= count_of (downloads_per_journal (run_ rows0 csv pdfs (S k)).2) j.
Proof.
  destruct (run_step rows0 csv pdfs k) as [->|[_ Hit]]; [done|].
  destruct (iteration_effect _ _ _ _ Hit)
    as [(_ & _ & _ & _ & _ & _ & Hc & _)
       |(row & journal & ok & _ & _ & _ & _ & _ & _ & _ & _ & _ & Hc & _)];
    rewrite Hc; [done|].
  destruct ok; [|done]. case_decide; lia.
Qed.

Lemma run_count_mono rows0 csv pdfs k k' j :
  k <= k' ->
  count_of (downloads_per_journal (run_ rows0 csv pdfs k).2) j
  <= count_of (downloads_per_journal (run_ rows0 csv pdfs k').2) j.
Proof.
  induction 1 as [|k' _ IH]; [done|].
  etrans; [apply IH|apply run_count_step].
Qed.

Lemma run_skip_at_quota rows0 csv pdfs k k' j row :
  k <= k' ->
  PDFS_PER_JOURNAL <= count_of (downloads_per_journal (run_ rows0 csv pdfs k).2) j ->
  rows (run_ rows0 csv pdfs k').2 !! k' = Some row ->
  getitem row "journal" = inr j ->
  attempted_rows (trace (run_ rows0 csv pdfs (S k')).2)
    = attempted_rows (trace (run_ rows0 csv pdfs k').2) /\
  rows (run_ rows0 csv pdfs (S k')).2 = rows (run_ rows0 csv pdfs k').2 /\
  pdf_files (run_ rows0 csv pdfs (S k')).2 = pdf_files (run_ rows0 csv pdfs k').2.
Proof.
  intros Hle Hfull Hrow Hj.
  pose proof (run_count_mono rows0 csv pdfs k k' j Hle) as Hmono.
  destruct (run_step rows0 csv pdfs k') as [->|[_ Hit]]; [done|].
  destruct (iteration_effect _ _ _ _ Hit)
    as [(Hr & Ha & _ & _ & Hp & _)
       |(row' & journal & ok & Hrow' & Hj' & _ & _ & Hlt & _)]; [done|].
  rewrite Hrow in Hrow'. injection Hrow' as <-.
  rewrite Hj in Hj'. injection Hj' as <-. lia.
Qed.

(** *** The status of the rows *)

Lemma status_of_setitem row v : status_of (setitem row "downloaded" v) = Some v.
Proof. unfold status_of, get, setitem; cbn [fields]. by rewrite lookup_insert_eq. Qed.

Lemma run_valid rows0 csv pdfs k :
  Forall valid_status rows0 ->
  Forall valid_status (rows (run_ rows0 csv pdfs k).2).
Proof.
  intros Hvalid.
  apply (run_state_invariant (fun st => Forall valid_status (rows st))); [done|].
  intros k' st f st' Hst Hit.
  destruct (iteration_effect _ _ _ _ Hit)
    as [(-> & _)|(row & journal & ok & _ & _ & _ & _ & _ & -> & _)]; [done|].
  apply Forall_insert; [done|].
  unfold valid_status. rewrite status_of_setitem.
  destruct ok; set_solver.
Qed.

Lemma iteration_terminal_stable k st f st' i row :
  iteration_ k st f st' ->
  rows st !! i = Some row -> terminal row -> rows st' !! i = Some row.
Proof.
  intros Hit Hrow Hterm.
  destruct (iteration_effect _ _ _ _ Hit)
    as [(-> & _)|(row' & journal & ok & Hrow' & _ & Hnt & _ & _ & -> & _)]; [done|].
  rewrite list_lookup_insert_ne; [done|].
  intros <-. rewrite Hrow in Hrow'. by injection Hrow' as <-.
Qed.

Lemma run_terminal_stable rows0 csv pdfs k k' i row :
  k <= k' ->
  rows (run_ rows0 csv pdfs k).2 !! i = Some row -> terminal row ->
  rows (run_ rows0 csv pdfs k').2 !! i = Some row.
Proof.
  intros Hle Hrow Hterm. induction Hle as [|k' _ IH]; [done|].
  destruct (run_step rows0 csv pdfs k') as [->|[_ Hit]]; [done|].
  by eapply iteration_terminal_stable.
Qed.

(** The attempts made up to a point of a run are for rows before that
    point, each visited once, and whose status at the start was not
    terminal; the rows from that point on are as at the start. *)
Lemma run_attempted rows0 csv pdfs k :
  let st := (run_ rows0 csv pdfs k).2 in
  (forall i, i ∈ attempted_rows (trace st) ->
     i < k /\ exists row, rows0 !! i = Some row /\ ~ terminal row) /\
  NoDup (attempted_rows (trace st)) /\
  (forall i, k <= i -> rows st !! i = rows0 !! i).
Proof.
  apply (run_invariant (fun k _ st =>
    (forall i, i ∈ attempted_rows (trace st) ->
       i < k /\ exists row, rows0 !! i = Some row /\ ~ terminal row) /\
    NoDup (attempted_rows (trace st)) /\
    (forall i, k <= i -> rows st !! i = rows0 !! i))).
  - split; [|split]; [|constructor|done].
    intros i Hi. by apply not_elem_of_nil in Hi.
  - intros k' st f st' (Hatt & Hnd & Hrest) Hit.
    destruct (iteration_effect _ _ _ _ Hit)
      as [(-> & -> & _)
         |(row & journal & ok & Hrow & _ & Hnt & _ & _ & -> & -> & _)].
    + split; [|split]; [|done|].
      * intros i Hi. destruct (Hatt i Hi) as [Hlt Hex]. split; [lia|done].
      * intros i Hi. apply Hrest. lia.
    + split; [|split].
      * intros i Hi. apply elem_of_cons in Hi as [->|Hi].
        -- split; [lia|]. exists row. split; [|done].
           by rewrite <-Hrest.
        -- destruct (Hatt i Hi) as [Hlt Hex]. split; [lia|done].
      * apply NoDup_cons. split; [|done].
        intros Hin. destruct (Hatt _ Hin) as [Hlt _]. lia.
      * intros i Hi. rewrite list_lookup_insert_ne by lia. apply Hrest. lia.
  - intros k' f st (Hatt & Hnd & Hrest).
    split; [|split]; [|done|].
    + intros i Hi. destruct (Hatt i Hi) as [Hlt Hex]. split; [lia|done].
    + intros i Hi. apply Hrest. lia.
Qed.


(** *** The end of a run *)

Lemma writerows_ok (rows : list Row) :
  (Csv.writerows fieldnames rows).2 = None <-> Forall (writable fieldnames) rows.
Proof.
  induction rows as [|row rows IH]; simpl; [by split|].
  unfold Csv.dict_to_list. fold (writable fieldnames row).
  destruct (bool_decide (writable fieldnames row)) eqn:Hw.
  - apply bool_decide_eq_true in Hw.
    destruct (Csv.writerows fieldnames rows) as [lines r]; simpl in *.
    rewrite Forall_cons. tauto.
  - apply bool_decide_eq_false in Hw. simpl.
    rewrite Forall_cons. split; [done|tauto].
Qed.

Lemma write_csv_ok (rows : list Row) :
  (write_csv rows fieldnames).2 = None <-> Forall (writable fieldnames) rows.
Proof.
  rewrite <-writerows_ok. unfold write_csv.
  by destruct (Csv.writerows fieldnames rows).
Qed.

Lemma writable_setitem row v :
  "downloaded" ∈ fieldnames ->
  writable fieldnames row -> writable fieldnames (setitem row "downloaded" v).
Proof.
  intros Hfn [Hrest Hdom]. split; [done|].
  unfold setitem; cbn [fields]. rewrite dom_insert.
  apply union_least; [|done].
  apply singleton_subseteq_l. by apply elem_of_list_to_set.
Qed.

(** The counter is the number of successful downloads, it stays within
    the target, and a run that ends in an exception has not reached the
    target. *)
Lemma run_exit rows0 csv pdfs k :
  "downloaded" ∈ fieldnames ->
  let r := run_ rows0 csv pdfs k in
  downloads_successful r.2 = successes (trace r.2) /\
  downloads_successful r.2 <= TOTAL_PDFS /\
  (forall e, r.1 = Raise e -> downloads_successful r.2 < TOTAL_PDFS).
Proof.
  intros Hfn r. subst r.
  enough (Hinv :
    downloads_successful (run_ rows0 csv pdfs k).2
      = successes (trace (run_ rows0 csv pdfs k).2) /\
    downloads_successful (run_ rows0 csv pdfs k).2 <= TOTAL_PDFS /\
    ((run_ rows0 csv pdfs k).1 = Next ->
       Forall (writable fieldnames) (rows (run_ rows0 csv pdfs k).2) \/
       downloads_successful (run_ rows0 csv pdfs k).2 = 0) /\
    (forall e, (run_ rows0 csv pdfs k).1 = Raise e ->
       downloads_successful (run_ rows0 csv pdfs k).2 < TOTAL_PDFS))
    by tauto.
  apply (run_invariant (fun _ f st =>
    downloads_successful st = successes (trace st) /\
    downloads_successful st <= TOTAL_PDFS /\
    (f = Next -> Forall (writable fieldnames) (rows st) \/ downloads_successful st = 0) /\
    (forall e, f = Raise e -> downloads_successful st < TOTAL_PDFS))).
  - repeat split; try done.
    + unfold init_state, TOTAL_PDFS; simpl; lia.
    + intros _. by right.
  - intros k' st f st' (Hcount & Hle & Hw & _) Hit.
    specialize (Hw eq_refl).
    destruct (iteration_effect _ _ _ _ Hit)
      as [(-> & _ & -> & -> & _ & _ & _ & Hf)
         |(row & journal & ok & Hrow & _ & _ & Hlt & _ & Hrows & _ & -> & -> & _ & ->)].
    + repeat split; try done.
      intros e ->. by destruct Hf.
    + assert (Hle' : (if ok then S (downloads_successful st)
                      else downloads_successful st) <= TOTAL_PDFS)
        by (destruct ok; lia).
      split; [by destruct ok; rewrite Hcount|]. split; [done|].
      destruct (write_csv (rows st') fieldnames).2 as [e|] eqn:Hwrite.
      * split; [done|]. intros _ _.
        destruct Hw as [Hw|Hzero].
        -- assert (Forall (writable fieldnames) (rows st')) as Hw'.
           { rewrite Hrows. apply Forall_insert; [done|].
             apply writable_setitem; [done|].
             eapply Forall_lookup_1; eauto. }
           apply write_csv_ok in Hw'. congruence.
        -- rewrite Hzero. unfold TOTAL_PDFS. destruct ok; simpl; lia.
      * split; [|done]. intros _. left. by apply write_csv_ok.
  - intros k' f st H. exact H.
Qed.

End LoopFacts.

(** ** main *)

Lemma read_csv_fieldnames csv rows0 fieldnames :
  read_csv_with_downloaded_column csv = inr (rows0, fieldnames) ->
  "downloaded" ∈ fieldnames.
Proof.
  unfold read_csv_with_downloaded_column.
  destruct csv as [e|lines]; [done|].
  destruct (Csv.fieldnames lines) as [header|]; [|done].
  destruct (bool_decide ("downloaded" ∈ header)) eqn:Hin; intros [= _ <-].
  - by apply bool_decide_eq_true in Hin.
  - set_solver.
Qed.

Lemma iteration_active env fieldnames journals_by_priority k st f st' :
  iteration env fieldnames journals_by_priority k st f st' ->
  active_journals st' = active_journals st \/
  exists journal,
    active_journals st' = active_journals (select_journal journals_by_priority journal st).
Proof. intros Hit. destruct Hit; try (by left); right; by eexists. Qed.

(** *** The journals of the priority list *)

Lemma insert_by_key_elem x l r y :
  insert_by_key x l = inr r -> y ∈ r <-> y = x \/ y ∈ l.
Proof.
  revert r; induction l as [|z l IH]; intros r; simpl.
  - intros [= <-]. rewrite list_elem_of_singleton, elem_of_nil. tauto.
  - destruct (key_lt x z) as [e|[]]; [done| |].
    + intros [= <-]. by rewrite elem_of_cons.
    + destruct (insert_by_key x l) as [e|r']; [done|].
      intros [= <-]. rewrite !elem_of_cons, (IH r' eq_refl). tauto.
Qed.

Lemma sorted_elem l s y : sorted l = inr s -> y ∈ s <-> y ∈ l.
Proof.
  revert s; induction l as [|x l IH]; intros s; simpl.
  - by intros [= <-].
  - destruct (sorted l) as [e|s']; [done|].
    intros Hins. rewrite (insert_by_key_elem _ _ _ _ Hins), elem_of_cons.
    by rewrite (IH s' eq_refl).
Qed.

Lemma priority_journals_known rows0 journal_stats journals_by_priority journal :
  get_journal_download_stats rows0 = inr journal_stats ->
  get_sorted_journals_by_priority rows0 = inr journals_by_priority ->
  journal ∈ journals_by_priority -> journal ∈ dom journal_stats.
Proof.
  intros Hstats. unfold get_sorted_journals_by_priority. rewrite Hstats.
  destruct (sorted _) as [e|s] eqn:Hsorted; [done|].
  intros [= <-] Hin.
  apply list_elem_of_fmap in Hin as ([n j] & -> & Hin).
  apply (sorted_elem _ _ _ Hsorted) in Hin.
  apply list_elem_of_fmap in Hin as ([j' stat] & [= _ ->] & Hin).
  apply elem_of_map_to_list in Hin. apply elem_of_dom. by eexists.
Qed.

Lemma select_journal_known (journals_by_priority : list (option string))
    (journal : option string) (st : State) (known : gset (option string)) :
  (forall j, j ∈ journals_by_priority -> j ∈ known) ->
  active_journals st ⊆ known ->
  active_journals (select_journal journals_by_priority journal st) ⊆ known.
Proof.
  intros Hknown Hsub. unfold select_journal.
  repeat case_match; try done; cbn [active_journals];
    apply union_least; try done; apply singleton_subseteq_l, Hknown.
  - by eapply bool_decide_eq_true_1.
  - by eapply proj1, bool_decide_eq_true_1.
Qed.

Lemma run_active_known (env : Env) (fieldnames : list string)
    (journals_by_priority : list (option string))
    (rows0 : list Row) (csv : file_content) (pdfs : Files) (k : nat)
    (known : gset (option string)) :
  (forall j, j ∈ journals_by_priority -> j ∈ known) ->
  active_journals (run env fieldnames journals_by_priority rows0 csv pdfs k).2 ⊆ known.
Proof.
  intros Hknown.
  apply (run_state_invariant env fieldnames journals_by_priority
           (fun st => active_journals st ⊆ known)).
  - apply empty_subseteq.
  - intros k' st f st' Hsub Hit.
    destruct (iteration_active _ _ _ _ _ _ _ Hit) as [->|[journal ->]]; [done|].
    by apply select_journal_known.
Qed.

Lemma sortable_subseteq (A B : gset (option string)) :
  A ⊆ B -> sortable B = true -> sortable A = true.
Proof.
  unfold sortable. intros Hsub HB.
  apply bool_decide_eq_true in HB. apply bool_decide_eq_true.
  destruct HB as [HB|HB].
  - left. intros HA. by apply HB, Hsub.
  - right. etrans; [by apply subseteq_size|done].
Qed.

(** [main] ends before the loop with an exception, or runs the loop over
    all the rows; the final message never fails. *)
Lemma main_cases env csv pdfs :
  (exists e rows0, main env csv pdfs = (Uncaught e, init_state rows0 csv pdfs))
  \/
  (exists rows0 fieldnames journals_by_priority,
     read_csv_with_downloaded_column csv = inr (rows0, fieldnames) /\
     main env csv pdfs
     = let r := run env fieldnames journals_by_priority rows0 csv pdfs (length rows0) in
       (match r.1 with
        | Raise e => Uncaught e
        | _ => if (downloads_successful r.2 <? TOTAL_PDFS)%nat
               then Returned 1 else Returned 0
        end, r.2)).
Proof.
  unfold main.
  destruct (read_csv_with_downloaded_column csv) as [e|[rows0 fieldnames]] eqn:Hread;
    [left; by eexists _, _|].
  destruct (get_journal_download_stats rows0) as [e|journal_stats] eqn:Hstats;
    [left; by eexists _, _|].
  destruct (sortable (dom journal_stats)) eqn:Hsortable;
    [|left; by eexists _, _].
  destruct (get_sorted_journals_by_priority rows0) as [e|journals_by_priority] eqn:Hprio;
    [left; by eexists _, _|].
  right. exists rows0, fieldnames, journals_by_priority. split; [done|].
  pose proof (run_active_known env fieldnames journals_by_priority rows0 csv pdfs
                (length rows0) (dom journal_stats)
                (fun j => priority_journals_known _ _ _ j Hstats Hprio)) as Hsub.
  apply sortable_subseteq in Hsub; [|done].
  unfold run in *.
  destruct (loop env fieldnames journals_by_priority (length rows0) 0
              (init_state rows0 csv pdfs)) as [[] st]; cbn [fst snd negb] in *;
    rewrite ?Hsub; cbn [negb]; try done;
    by destruct (downloads_successful st <? TOTAL_PDFS)%nat.
Qed.

(** ** The active set *)

(** C2.  One iteration takes the active set beyond [NUM_JOURNALS] only
    through the overflow branch, reached with a full set and with its test
    true: if the set has more than [NUM_JOURNALS] journals after an
    iteration, then it had them before, or the set was full and
    [running_short] held when the journal was added.  Hence at every point
    of a run the active set has at most [NUM_JOURNALS] journals, or there
    is an earlier iteration that started with a full set and a true test
    and made the set larger. *)
Theorem active_set_bounded_unless_rescue
    (env : Env) (fieldnames : list string) (journals_by_priority : list (option string)) :
  (forall i st f st',
     body env fieldnames journals_by_priority i st = (f, st') ->
     NUM_JOURNALS < size (active_journals st') ->
     active_journals st' = active_journals st \/
     (NUM_JOURNALS <= size (active_journals st) /\ running_short st = true)) /\
  (forall rows0 csv pdfs k,
     let r := run env fieldnames journals_by_priority rows0 csv pdfs in
     size (active_journals (r k).2) <= NUM_JOURNALS \/
     exists k', k' < k /\
       NUM_JOURNALS <= size (active_journals (r k').2) /\
       running_short (r k').2 = true /\
       size (active_journals (r k').2) < size (active_journals (r (S k')).2)).
Proof.
  split.
  - intros i st f st' Hbody Hmore.
    apply body_iteration in Hbody.
    destruct (iteration_active _ _ _ _ _ _ _ Hbody) as [Hsame|[journal Hsel]]; [by left|].
    destruct (select_journal_cases journals_by_priority journal st)
      as [Hst|[(Hlt & Hnew & Hact & _)|(Hfull & Hshort & _)]].
    + left. by rewrite Hsel, Hst.
    + rewrite Hsel, Hact, size_add_new in Hmore by done. lia.
    + by right.
  - intros rows0 csv pdfs k r. left.
    apply (run_balanced env fieldnames journals_by_priority rows0 csv pdfs k).
Qed.

Lemma active_set_bounded_unless_rescue_witness :
  active_journals (body helpful_env sample_header [Some "F"] 0 crowded_state).2
    = active_journals crowded_state \/
  (NUM_JOURNALS <= size (active_journals crowded_state) /\
   running_short crowded_state = true).
Proof.
  apply (proj1 (active_set_bounded_unless_rescue helpful_env sample_header [Some "F"])
           0 crowded_state
           (body helpful_env sample_header [Some "F"] 0 crowded_state).1).
  - apply surjective_pairing.
  - vm_compute. lia.
Defined.

(** C10.  At every point of a run [downloads_successful] is the sum of
    the values of [downloads_per_journal]; so the test of the [elif] is
    [len(active_journals) * PDFS_PER_JOURNAL < TOTAL_PDFS], which is false
    once the active set is full; no journal is ever added through that
    branch, and the active set never has more than [NUM_JOURNALS]
    journals. *)
Theorem overflow_branch_never_taken
    (env : Env) (fieldnames : list string) (journals_by_priority : list (option string))
    (rows0 : list Row) (csv : file_content) (pdfs : Files) (k : nat) :
  let st := (run env fieldnames journals_by_priority rows0 csv pdfs k).2 in
  downloads_successful st = sum_values (downloads_per_journal st) /\
  running_short st
    = (size (active_journals st) * PDFS_PER_JOURNAL <? TOTAL_PDFS)%nat /\
  (size (active_journals st) < NUM_JOURNALS \/ running_short st = false) /\
  overflow_journals (trace st) = [] /\
  size (active_journals st) <= NUM_JOURNALS.
Proof.
  intros st.
  destruct (run_balanced env fieldnames journals_by_priority rows0 csv pdfs k)
    as (Hagree & Hsize & Htrace).
  fold st in Hagree, Hsize, Htrace.
  split; [done|]. split; [|split; [|done]].
  - unfold running_short. rewrite <-Hagree.
    destruct (size (active_journals st) * PDFS_PER_JOURNAL <? TOTAL_PDFS)%nat eqn:E.
    + apply Nat.ltb_lt in E. apply Z.ltb_lt. lia.
    + apply Nat.ltb_ge in E. apply Z.ltb_ge. lia.
  - destruct (decide (size (active_journals st) < NUM_JOURNALS)) as [|Hfull]; [by left|].
    right. apply counts_agree_not_short; [done|lia].
Qed.

(** ** The quota of a journal *)

(** C4.  At every point of a run the count of a journal in
    [downloads_per_journal] is at most [PDFS_PER_JOURNAL]; and from the
    point where a journal has reached it, an iteration on a row of that
    journal calls [download_pdf] no more and leaves the rows and the files
    as they are. *)
Theorem quota_never_exceeded
    (env : Env) (fieldnames : list string) (journals_by_priority : list (option string))
    (rows0 : list Row) (csv : file_content) (pdfs : Files) :
  let r := run env fieldnames journals_by_priority rows0 csv pdfs in
  (forall k j, count_of (downloads_per_journal (r k).2) j <= PDFS_PER_JOURNAL) /\
  (forall k k' j row,
     k <= k' ->
     PDFS_PER_JOURNAL <= count_of (downloads_per_journal (r k).2) j ->
     rows (r k').2 !! k' = Some row ->
     getitem row "journal" = inr j ->
     attempted_rows (trace (r (S k')).2) = attempted_rows (trace (r k').2) /\
     rows (r (S k')).2 = rows (r k').2 /\
     pdf_files (r (S k')).2 = pdf_files (r k').2).
Proof.
  intros r. split.
  - intros k j. apply run_quota.
  - intros k k' j row. apply run_skip_at_quota.
Qed.

Lemma quota_never_exceeded_witness :
  let r := run helpful_env sample_header [Some "A"] three_articles (Table []) [] in
  attempted_rows (trace (r 3).2) = attempted_rows (trace (r 2).2) /\
  rows (r 3).2 = rows (r 2).2 /\
  pdf_files (r 3).2 = pdf_files (r 2).2.
Proof.
  apply (proj2 (quota_never_exceeded helpful_env sample_header [Some "A"]
                  three_articles (Table []) [])
           2 2 (Some "A")
           (Csv.reader_row sample_header (sample_line "A" "10.1/a3" ""))).
  - lia.
  - vm_compute. lia.
  - by vm_compute.
  - by vm_compute.
Defined.

(** ** The status of the rows *)

Lemma unavailable_terminal (row : Row) : unavailable row -> terminal row.
Proof. intros H. exists "unavailable". split; [done|set_solver]. Qed.

(** C3, as amended.  If every status is [""], ["yes"] or ["unavailable"]
    when the loop starts, it is so at every point of the run.  Whatever
    the statuses at the start: a row that is unavailable at some point is
    the same at every later point; a row that is unavailable at the start
    is never attempted; and no row is attempted twice in a run. *)
Theorem unavailable_is_terminal
    (env : Env) (fieldnames : list string) (journals_by_priority : list (option string))
    (rows0 : list Row) (csv : file_content) (pdfs : Files) :
  let r := run env fieldnames journals_by_priority rows0 csv pdfs in
  (Forall valid_status rows0 -> forall k, Forall valid_status (rows (r k).2)) /\
  (forall k k' i row,
     k <= k' -> rows (r k).2 !! i = Some row -> unavailable row ->
     rows (r k').2 !! i = Some row) /\
  (forall k i row,
     rows0 !! i = Some row -> unavailable row -> i ∉ attempted_rows (trace (r k).2)) /\
  (forall k, NoDup (attempted_rows (trace (r k).2))).
Proof.
  intros r. split; [|split; [|split]].
  - intros Hvalid k. by apply run_valid.
  - intros k k' i row Hle Hrow Hun.
    eapply run_terminal_stable; eauto using unavailable_terminal.
  - intros k i row Hrow Hun Hin.
    destruct (run_attempted env fieldnames journals_by_priority rows0 csv pdfs k)
      as (Hatt & _ & _).
    destruct (Hatt i Hin) as [_ (row' & Hrow' & Hnt)].
    rewrite Hrow in Hrow'. injection Hrow' as <-.
    by apply Hnt, unavailable_terminal.
  - intros k.
    by destruct (run_attempted env fieldnames journals_by_priority rows0 csv pdfs k)
      as (_ & Hnd & _).
Qed.

Lemma unavailable_is_terminal_witness :
  Forall valid_status
    (rows (run useless_env sample_header [Some "A"] three_articles (Table []) [] 3).2) /\
  rows (run useless_env sample_header [Some "A"] three_articles (Table []) [] 3).2 !! 0
  = Some (setitem (Csv.reader_row sample_header (sample_line "A" "10.1/a1" ""))
            "downloaded" "unavailable").
Proof.
  pose proof (unavailable_is_terminal useless_env sample_header [Some "A"]
                three_articles (Table []) []) as (Hvalid & Hstable & _).
  split.
  - apply Hvalid. unfold valid_status. repeat constructor.
  - apply (Hstable 1 3 0); [lia|by vm_compute|by vm_compute].
Defined.

(** C3, as stated, fails on a table with another spelling in the status
    column: [YES] counts as downloaded, is skipped, and is still there
    after the run. *)
Lemma status_outside_the_three_values :
  map status_of (rows (main helpful_env marked_by_hand []).2) = [Some "YES"; Some "yes"] /\
  ~ Forall valid_status (rows (main helpful_env marked_by_hand []).2).
Proof.
  split; [by vm_compute|].
  intros H. apply Forall_lookup_1 with (i := 0)
    (x := Csv.reader_row sample_header (sample_line "A" "10.1/a1" "YES")) in H;
    [|by vm_compute].
  unfold valid_status in H.
  replace (status_of _) with (Some "YES") in H by (by vm_compute).
  repeat (apply elem_of_cons in H as [H|H]; [discriminate H|]).
  by apply elem_of_nil in H.
Qed.

(** ** The exit status *)

(** C6.  The process ends with status 0 exactly when the run has made
    [TOTAL_PDFS] successful downloads; otherwise it has made fewer and
    ends with status 1.  The counter of the loop is the number of
    successful calls of [download_pdf]. *)
Theorem exit_code_zero_iff_target (env : Env) (csv : file_content) (pdfs : Files) :
  let r := main env csv pdfs in
  (exit_code r.1 = 0 <-> successes (trace r.2) = TOTAL_PDFS) /\
  (exit_code r.1 = 1 <-> successes (trace r.2) < TOTAL_PDFS) /\
  downloads_successful r.2 = successes (trace r.2).
Proof.
  intros r. subst r.
  destruct (main_cases env csv pdfs)
    as [(e & rows0 & ->)|(rows0 & fieldnames & journals_by_priority & Hread & ->)].
  - unfold TOTAL_PDFS; simpl. repeat split; (done || lia).
  - apply read_csv_fieldnames in Hread.
    destruct (run_exit env fieldnames journals_by_priority rows0 csv pdfs
                (length rows0) Hread) as (Hcount & Hle & Hraise).
    cbn zeta. cbn [fst snd]. rewrite <-Hcount.
    destruct (run env fieldnames journals_by_priority rows0 csv pdfs (length rows0)).1
      as [| |e] eqn:Hflow.
    3:{ specialize (Hraise e eq_refl). simpl. repeat split; (done || lia). }
    all: destruct (downloads_successful _ <? TOTAL_PDFS)%nat eqn:Hlt;
      [apply Nat.ltb_lt in Hlt|apply Nat.ltb_ge in Hlt];
      simpl; repeat split; (done || lia).
Qed.

Lemma exit_code_zero_iff_target_witness :
  successes (trace (main helpful_env ten_articles []).2) = TOTAL_PDFS /\
  successes (trace (main useless_env ten_articles []).2) < TOTAL_PDFS.
Proof.
  split.
  - apply (proj1 (proj1 (exit_code_zero_iff_target helpful_env ten_articles []))).
    by vm_compute.
  - apply (proj1 (proj1 (proj2 (exit_code_zero_iff_target useless_env ten_articles [])))).
    by vm_compute.
Defined.

(** * Further properties *)

(** ** The file names *)

Lemma encode_doi_for_filename_join (doi : string) :
  encode_doi_for_filename doi = Str.join_map encoded_char (without_resolver doi).
Proof.
  unfold encode_doi_for_filename, without_resolver.
  change (String.length "https://doi.org/") with 16.
  change (String.length "http://doi.org/") with 15.
  apply encode_remainder.
Qed.

Lemma forall_chars_app (p : ascii -> bool) (s t : string) :
  Str.forall_chars p (s ++ t) = Str.forall_chars p s && Str.forall_chars p t.
Proof.
  unfold Str.forall_chars. induction s as [|c s IH]; [done|].
  rewrite append_cons. simpl. by rewrite IH, andb_assoc.
Qed.

Lemma forall_chars_join_map (p : ascii -> bool) (f : ascii -> string) (s : string) :
  (forall c, Str.forall_chars p (f c) = true) ->
  Str.forall_chars p (Str.join_map f s) = true.
Proof.
  intros Hf. induction s as [|c s IH]; [done|].
  simpl. by rewrite forall_chars_app, Hf, IH.
Qed.

Lemma encoded_char_filename (c : ascii) :
  Str.forall_chars filename_char (encoded_char c) = true.
Proof. by destruct c as [[] [] [] [] [] [] [] []]. Qed.

Lemma mem_forall_chars (p : ascii -> bool) (c : ascii) (s : string) :
  Str.forall_chars p s = true -> p c = false -> Str.mem c s = false.
Proof.
  unfold Str.forall_chars, Str.mem. intros Hall Hc.
  induction s as [|d s IH]; [done|]. simpl in *.
  apply andb_prop in Hall as [Hd Hall]. rewrite IH by done.
  destruct (Ascii.eqb_spec c d) as [->|]; [congruence|done].
Qed.

Lemma encode_doi_for_filename_chars (doi : string) :
  Str.forall_chars filename_char (encode_doi_for_filename doi) = true.
Proof.
  rewrite encode_doi_for_filename_join.
  apply forall_chars_join_map, encoded_char_filename.
Qed.

(** X1.  Whatever the identifier, its file name is made of ASCII letters
    and digits and of the characters [_ - . ~ %] only; so it has no slash,
    no backslash (the character 92), no colon and no space. *)
Theorem encode_doi_for_filename_safe (doi : string) :
  Str.forall_chars filename_char (encode_doi_for_filename doi) = true /\
  Str.mem "/" (encode_doi_for_filename doi) = false /\
  Str.mem (ascii_of_nat 92) (encode_doi_for_filename doi) = false /\
  Str.mem ":" (encode_doi_for_filename doi) = false /\
  Str.mem " " (encode_doi_for_filename doi) = false.
Proof.
  pose proof (encode_doi_for_filename_chars doi) as H.
  repeat split; [done|..]; by eapply mem_forall_chars.
Qed.

Lemma hex_digit_inj (a b : nat) :
  a < 16 -> b < 16 -> Urllib.hex_digit a = Urllib.hex_digit b -> a = b.
Proof.
  intros Ha Hb.
  do 16 (destruct a as [|a]; [do 16 (destruct b as [|b]; [by vm_compute|]); lia|]).
  lia.
Qed.

Lemma format_02X_inj (c1 c2 : ascii) :
  Urllib.format_02X c1 = Urllib.format_02X c2 -> c1 = c2.
Proof.
  unfold Urllib.format_02X. intros Heq. injection Heq as Hhi Hlo.
  change (Urllib.hex_digit (nat_of_ascii c1 / 16)
          = Urllib.hex_digit (nat_of_ascii c2 / 16)) in Hhi.
  change (Urllib.hex_digit (nat_of_ascii c1 mod 16)
          = Urllib.hex_digit (nat_of_ascii c2 mod 16)) in Hlo.
  pose proof (nat_ascii_bounded c1) as H1.
  pose proof (nat_ascii_bounded c2) as H2.
  apply hex_digit_inj in Hhi;
    [|apply Nat.Div0.div_lt_upper_bound; lia|apply Nat.Div0.div_lt_upper_bound; lia].
  apply hex_digit_inj in Hlo; [|apply Nat.mod_upper_bound; lia..].
  rewrite <-(ascii_nat_embedding c1), <-(ascii_nat_embedding c2). f_equal.
  rewrite (Nat.div_mod_eq (nat_of_ascii c1) 16), (Nat.div_mod_eq (nat_of_ascii c2) 16).
  by rewrite Hhi, Hlo.
Qed.

(** The three ways a character is encoded. *)
Lemma encoded_char_cases (c : ascii) :
  (c = "/"%char /\ encoded_char c = "__") \/
  (c <> "%"%char /\ encoded_char c = String c "") \/
  (c <> "/"%char /\ encoded_char c = Urllib.format_02X c).
Proof.
  unfold encoded_char.
  destruct (Ascii.eqb_spec c "/") as [->|Hslash]; [by left|].
  destruct (is_alnum c || Str.mem c "_-.~") eqn:Hkeep; [|by right; right].
  right; left. split; [|done]. by intros ->.
Qed.

Lemma encoded_char_head (c1 c2 : ascii) (t1 t2 : string) :
  c1 <> "_"%char -> c2 <> "_"%char ->
  encoded_char c1 ++ t1 = encoded_char c2 ++ t2 -> c1 = c2 /\ t1 = t2.
Proof.
  intros H1 H2.
  destruct (encoded_char_cases c1) as [[-> ->]|[[Hp1 ->]|[Hs1 E1]]];
    destruct (encoded_char_cases c2) as [[-> ->]|[[Hp2 ->]|[Hs2 E2]]];
    rewrite ?E1, ?E2.
  9:{ intros Heq.
      assert (Urllib.format_02X c1 = Urllib.format_02X c2 /\ t1 = t2) as [Hf Ht].
      { unfold Urllib.format_02X in *. rewrite !append_cons, !append_nil in Heq.
        injection Heq as Hhi Hlo Ht. split; [|done].
        cbv zeta. do 2 f_equal; [exact Hhi|]. f_equal. exact Hlo. }
      split; [by apply format_02X_inj|done]. }
  all: unfold Urllib.format_02X; rewrite ?append_cons, ?append_nil;
    intros Heq; inversion Heq; subst; done.
Qed.

Lemma join_map_encoded_char_inj (r1 r2 : string) :
  Str.mem "_" r1 = false -> Str.mem "_" r2 = false ->
  Str.join_map encoded_char r1 = Str.join_map encoded_char r2 -> r1 = r2.
Proof.
  assert (Hnonempty : forall c t, encoded_char c ++ t <> "").
  { intros c t.
    destruct (encoded_char_cases c) as [[_ ->]|[[_ ->]|[_ ->]]];
      unfold Urllib.format_02X; by rewrite append_cons. }
  assert (Hmem : forall c r, Str.mem "_" (String c r) = false ->
                             c <> "_"%char /\ Str.mem "_" r = false).
  { intros c r.
    change (Str.mem "_" (String c r)) with (Ascii.eqb "_" c || Str.mem "_" r).
    destruct (Ascii.eqb_spec "_" c) as [<-|Hne]; [done|]. simpl. auto. }
  revert r2; induction r1 as [|c1 r1 IH]; intros [|c2 r2] Hm1 Hm2 Heq; simpl in Heq.
  - done.
  - symmetry in Heq. by apply Hnonempty in Heq.
  - by apply Hnonempty in Heq.
  - apply Hmem in Hm1 as [Hc1 Hm1]. apply Hmem in Hm2 as [Hc2 Hm2].
    apply encoded_char_head in Heq as [-> Heq]; [|done..].
    f_equal. by apply IH.
Qed.

(** X2.  Two identifiers without an underscore after the resolver prefix
    get the same file name only if they are the same after the prefix.
    Without that condition the encoding is not injective: a slash and a
    double underscore give the same name, and so do an identifier with and
    without the resolver prefix. *)
Theorem encode_doi_for_filename_injective :
  (forall doi1 doi2,
     Str.mem "_" (without_resolver doi1) = false ->
     Str.mem "_" (without_resolver doi2) = false ->
     encode_doi_for_filename doi1 = encode_doi_for_filename doi2 ->
     without_resolver doi1 = without_resolver doi2) /\
  encode_doi_for_filename "10.1/a" = encode_doi_for_filename "10.1__a" /\
  encode_doi_for_filename "https://doi.org/10.1/a" = encode_doi_for_filename "10.1/a".
Proof.
  split; [|done].
  intros doi1 doi2 H1 H2. rewrite !encode_doi_for_filename_join.
  by apply join_map_encoded_char_inj.
Qed.

Lemma encode_doi_for_filename_injective_witness :
  without_resolver "https://doi.org/10.1/a-b" = without_resolver "http://doi.org/10.1/a-b".
Proof.
  apply (proj1 encode_doi_for_filename_injective
           "https://doi.org/10.1/a-b" "http://doi.org/10.1/a-b").
  - reflexivity.
  - reflexivity.
  - reflexivity.
Defined.

(** ** The statistics of the journals *)

Lemma stat_of_insert (m : gmap (option string) JournalStat) (j j' : option string) s :
  stat_of (<[j := s]> m) j' = if decide (j' = j) then s else stat_of m j'.
Proof.
  unfold stat_of. destruct (decide (j' = j)) as [->|Hne].
  - by rewrite lookup_insert_eq.
  - by rewrite lookup_insert_ne.
Qed.

Lemma stats_from_counts (rows : list Row) (acc : gmap (option string) JournalStat) :
  Forall countable_row rows ->
  exists m,
    get_journal_download_stats_from rows acc = inr m /\
    (forall j,
       total (stat_of m j)
       = total (stat_of acc j) + length (filter (in_journal j) rows) /\
       downloaded (stat_of m j)
       = downloaded (stat_of acc j)
         + length (filter (fun row => in_journal j row /\ marked_yes row) rows)) /\
    (forall j, j ∈ dom m <-> j ∈ dom acc \/ exists row, row ∈ rows /\ in_journal j row).
Proof.
  intros Hrows. revert acc.
  induction Hrows as [|row rows [[journal Hj] [status Hs]] _ IH]; intros acc.
  - exists acc. split; [done|]. split.
    + intros j. simpl. lia.
    + intros j. split; [by left|]. intros [H|(row & Hin & _)]; [done|].
      by apply elem_of_nil in Hin.
  - simpl. unfold getitem. rewrite Hj.
    fold (status_of row). rewrite Hs. cbn [py_lower].
    set (acc1 := <[journal := mkStat (S (total (stat_of acc journal)))
                                      (downloaded (stat_of acc journal))]> acc).
    set (acc2 := if String.eqb (Str.lower status) "yes"
                 then <[journal := mkStat (total (stat_of acc1 journal))
                                          (S (downloaded (stat_of acc1 journal)))]> acc1
                 else acc1).
    destruct (IH acc2) as (m & Hm & Hcount & Hdom).
    exists m. split; [done|].
    assert (Hyes : marked_yes row <-> String.eqb (Str.lower status) "yes" = true).
    { unfold marked_yes. rewrite Hs. simpl. rewrite String.eqb_eq.
      split; [by intros [= ->]|by intros ->]. }
    assert (Hacc2 : forall j,
      stat_of acc2 j
      = if decide (j = journal)
        then mkStat (S (total (stat_of acc j)))
               (if String.eqb (Str.lower status) "yes"
                then S (downloaded (stat_of acc j)) else downloaded (stat_of acc j))
        else stat_of acc j).
    { intros j. subst acc2 acc1.
      destruct (String.eqb (Str.lower status) "yes");
        rewrite !stat_of_insert; repeat case_decide; by subst. }
    split.
    + intros j. destruct (Hcount j) as [Ht Hd]. rewrite Ht, Hd, Hacc2, !filter_cons.
      assert (Hin : in_journal j row <-> j = journal).
      { unfold in_journal. rewrite Hj. split; congruence. }
      destruct (decide (j = journal)) as [Heq|Hne].
      * rewrite (decide_True (P := in_journal j row)) by (by apply Hin).
        destruct (String.eqb (Str.lower status) "yes") eqn:E.
        -- rewrite (decide_True (P := in_journal j row /\ marked_yes row));
             [simpl; lia|]. split; [by apply Hin|by apply Hyes].
        -- rewrite (decide_False (P := in_journal j row /\ marked_yes row));
             [simpl; lia|]. intros [_ Hy]. apply Hyes in Hy. congruence.
      * rewrite (decide_False (P := in_journal j row)) by (by rewrite Hin).
        rewrite (decide_False (P := in_journal j row /\ marked_yes row));
          [lia|]. intros [Hi _]. by apply Hin in Hi.
    + intros j. rewrite Hdom.
      assert (Hd2 : j ∈ dom acc2 <-> j ∈ dom acc \/ j = journal).
      { subst acc2 acc1. destruct (String.eqb (Str.lower status) "yes");
          rewrite ?dom_insert, ?elem_of_union, ?elem_of_singleton; tauto. }
      rewrite Hd2. split.
      * intros [[H| ->]|(row' & Hin & Hj')].
        -- by left.
        -- right. exists row. split; [apply list_elem_of_here|done].
        -- right. exists row'. split; [by apply list_elem_of_further|done].
      * intros [H|(row' & Hin & Hj')]; [by left; left|].
        apply elem_of_cons in Hin as [ ->|Hin].
        -- left; right. unfold in_journal in Hj'. congruence.
        -- right. by exists row'.
Qed.

(** X3.  On rows that all have a journal and a status, the statistics
    have an entry for exactly the journals of the rows; [total] is the
    number of rows of the journal and [downloaded] the number of those whose
    status is [yes] in any case of the letters. *)
Theorem get_journal_download_stats_counts (rows : list Row) :
  Forall countable_row rows ->
  exists journal_stats,
    get_journal_download_stats rows = inr journal_stats /\
    (forall j,
       total (stat_of journal_stats j) = length (filter (in_journal j) rows) /\
       downloaded (stat_of journal_stats j)
       = length (filter (fun row => in_journal j row /\ marked_yes row) rows)) /\
    (forall j, j ∈ dom journal_stats <-> exists row, row ∈ rows /\ in_journal j row).
Proof.
  intros Hrows.
  destruct (stats_from_counts rows ∅ Hrows) as (m & Hm & Hcount & Hdom).
  exists m. split; [done|]. split.
  - intros j. destruct (Hcount j) as [-> ->].
    unfold stat_of. rewrite lookup_empty. done.
  - intros j. rewrite Hdom, dom_empty, elem_of_empty. tauto.
Qed.

Lemma get_journal_download_stats_counts_witness :
  exists journal_stats,
    get_journal_download_stats marked_rows = inr journal_stats /\
    (forall j,
       total (stat_of journal_stats j) = length (filter (in_journal j) marked_rows) /\
       downloaded (stat_of journal_stats j)
       = length (filter (fun row => in_journal j row /\ marked_yes row) marked_rows)) /\
    (forall j, j ∈ dom journal_stats <-> exists row, row ∈ marked_rows /\ in_journal j row).
Proof.
  apply (get_journal_download_stats_counts marked_rows). by_computation.
Defined.

Lemma stats_from_error (rows : list Row) (acc : gmap (option string) JournalStat) :
  ~ Forall countable_row rows ->
  get_journal_download_stats_from rows acc = inl (KeyError "journal") \/
  get_journal_download_stats_from rows acc = inl AttributeError.
Proof.
  revert acc; induction rows as [|row rows IH]; intros acc Hbad.
  - by destruct Hbad.
  - simpl. unfold getitem.
    destruct (fields row !! "journal") as [journal|] eqn:Hj; [|by left].
    fold (status_of row).
    destruct (status_of row) as [status|] eqn:Hs; [|by right].
    cbn [py_lower]. apply IH. intros Hrows. apply Hbad.
    constructor; [|done]. split; by eexists.
Qed.

(** X4.  The statistics are computed if and only if every row has a
    journal column and a status that is not [None]; otherwise the function
    raises [KeyError] for the journal or [AttributeError] for the status of
    a short row. *)
Theorem get_journal_download_stats_fails (rows : list Row) :
  ((exists journal_stats, get_journal_download_stats rows = inr journal_stats)
   <-> Forall countable_row rows) /\
  (~ Forall countable_row rows ->
   get_journal_download_stats rows = inl (KeyError "journal") \/
   get_journal_download_stats rows = inl AttributeError).
Proof.
  split; [|apply stats_from_error].
  split.
  - intros [m Hm]. destruct (decide (Forall countable_row rows)) as [|Hbad]; [done|].
    destruct (stats_from_error rows ∅ Hbad) as [H|H];
      unfold get_journal_download_stats in Hm; congruence.
  - intros Hrows.
    destruct (stats_from_counts rows ∅ Hrows) as (m & Hm & _). by exists m.
Qed.

Lemma get_journal_download_stats_fails_witness :
  get_journal_download_stats [mkRow {["doi" := Some "10.1/a"]} None]
  = inl (KeyError "journal") \/
  get_journal_download_stats [mkRow {["doi" := Some "10.1/a"]} None]
  = inl AttributeError.
Proof.
  apply (proj2 (get_journal_download_stats_fails [mkRow {["doi" := Some "10.1/a"]} None])).
  by_computation.
Defined.

Lemma stats_dom (rows : list Row) (journal_stats : gmap (option string) JournalStat) :
  get_journal_download_stats rows = inr journal_stats ->
  forall j, j ∈ dom journal_stats <-> exists row, row ∈ rows /\ in_journal j row.
Proof.
  intros Hstats j.
  destruct (decide (Forall countable_row rows)) as [Hrows|Hbad].
  - destruct (stats_from_counts rows ∅ Hrows) as (m & Hm & _ & Hdom).
    unfold get_journal_download_stats in Hstats. rewrite Hstats in Hm.
    injection Hm as <-. rewrite Hdom, dom_empty, elem_of_empty. tauto.
  - destruct (stats_from_error rows ∅ Hbad) as [H|H];
      unfold get_journal_download_stats in Hstats; congruence.
Qed.

(** ** The priority list *)

Lemma ltb_total (x y : string) :
  String.ltb x y = false -> x <> y -> String.ltb y x = true.
Proof.
  unfold String.ltb. rewrite (String.compare_antisym y x).
  destruct (String.compare x y) eqn:E; simpl; try done.
  apply String.compare_eq_iff in E. congruence.
Qed.

Lemma key_lt_true (a b : nat * option string) : key_lt a b = inr true -> before a b.
Proof.
  unfold key_lt, before. destruct (Nat.eqb_spec a.1 b.1) as [Heq|Hne].
  - destruct a.2 as [x|], b.2 as [y|]; try done.
    intros [= Hlt]. right. split; [done|]. by exists x, y.
  - intros [= Hlt]. left. by apply Nat.ltb_lt.
Qed.

Lemma key_lt_false (a b : nat * option string) :
  key_lt a b = inr false -> a <> b -> before b a.
Proof.
  unfold key_lt, before. destruct a as [n x], b as [m y]; simpl.
  destruct (Nat.eqb_spec n m) as [->|Hne].
  - destruct x as [x|], y as [y|]; try done.
    intros [= Hlt] Hab. right. split; [done|]. exists y, x.
    split; [done|]. split; [done|]. apply ltb_total; [done|congruence].
  - intros [= Hlt] _. left. apply Nat.ltb_ge in Hlt. lia.
Qed.

Lemma insert_by_key_perm x l r : insert_by_key x l = inr r -> r ≡ₚ x :: l.
Proof.
  revert r; induction l as [|y l IH]; intros r; simpl.
  - by intros [= <-].
  - destruct (key_lt x y) as [e|[]]; [done| |].
    + by intros [= <-].
    + destruct (insert_by_key x l) as [e|r']; [done|].
      intros [= <-]. rewrite (IH r' eq_refl). apply Permutation_swap.
Qed.

Lemma sorted_perm l s : sorted l = inr s -> s ≡ₚ l.
Proof.
  revert s; induction l as [|x l IH]; intros s; simpl.
  - by intros [= <-].
  - destruct (sorted l) as [e|s']; [done|].
    intros Hins. rewrite (insert_by_key_perm _ _ _ Hins). by rewrite (IH s' eq_refl).
Qed.

Lemma insert_by_key_HdRel x y l r :
  HdRel before y l -> before y x -> insert_by_key x l = inr r -> HdRel before y r.
Proof.
  destruct l as [|z l]; simpl.
  - intros _ Hyx [= <-]. by constructor.
  - intros Hyz Hyx. destruct (key_lt x z) as [e|[]]; [done| |].
    + intros [= <-]. by constructor.
    + destruct (insert_by_key x l) as [e|r']; [done|].
      intros [= <-]. constructor. by inversion Hyz.
Qed.

Lemma insert_by_key_sorted x l r :
  Sorted before l -> x ∉ l -> insert_by_key x l = inr r -> Sorted before r.
Proof.
  revert r; induction l as [|y l IH]; intros r Hsorted Hnew; simpl.
  - intros [= <-]. by repeat constructor.
  - apply not_elem_of_cons in Hnew as [Hxy Hnew].
    apply Sorted_inv in Hsorted as [Hsorted Hhd].
    destruct (key_lt x y) as [e|[]] eqn:Hlt; [done| |].
    + intros [= <-]. constructor; [by constructor|].
      constructor. by apply key_lt_true.
    + destruct (insert_by_key x l) as [e|r'] eqn:Hins; [done|].
      intros [= <-]. constructor; [by apply IH|].
      eapply insert_by_key_HdRel; [done| |done].
      by apply key_lt_false.
Qed.

Lemma sorted_sorted l s : NoDup l -> sorted l = inr s -> Sorted before s.
Proof.
  revert s; induction l as [|x l IH]; intros s Hnd; simpl.
  - intros [= <-]. constructor.
  - apply NoDup_cons in Hnd as [Hnew Hnd].
    destruct (sorted l) as [e|s'] eqn:Hs; [done|].
    intros Hins. eapply insert_by_key_sorted; [by apply IH| |done].
    by rewrite (sorted_perm _ _ Hs).
Qed.

Lemma Sorted_lookup {A} (R : A -> A -> Prop) (l : list A) (i : nat) (a b : A) :
  Sorted R l -> l !! i = Some a -> l !! S i = Some b -> R a b.
Proof.
  intros Hsorted. revert i. induction Hsorted as [|x l Hs IH Hhd]; intros i; [done|].
  destruct i as [|i]; simpl.
  - intros [= ->] Hb. destruct l as [|y l]; [done|]. simpl in Hb.
    injection Hb as ->. by inversion Hhd.
  - apply IH.
Qed.

(** The priority list names the journals of the rows. *)
Lemma priority_list_elem (rows : list Row) (journals_by_priority : list (option string)) :
  get_sorted_journals_by_priority rows = inr journals_by_priority ->
  forall j, j ∈ journals_by_priority <-> exists row, row ∈ rows /\ in_journal j row.
Proof.
  unfold get_sorted_journals_by_priority.
  destruct (get_journal_download_stats rows) as [e|journal_stats] eqn:Hstats; [done|].
  destruct (sorted _) as [e|s] eqn:Hsorted; [done|].
  intros [= <-] j. rewrite <-(stats_dom rows journal_stats Hstats).
  rewrite elem_of_dom. split.
  - intros Hin. apply list_elem_of_fmap in Hin as ([n j'] & -> & Hin).
    apply (sorted_elem _ _ _ Hsorted) in Hin.
    apply list_elem_of_fmap in Hin as ([j'' stat] & [= _ ->] & Hin).
    apply elem_of_map_to_list in Hin. by eexists.
  - intros [stat Hstat]. apply list_elem_of_fmap.
    exists (downloaded stat, j). split; [done|].
    apply (sorted_elem _ _ _ Hsorted). apply list_elem_of_fmap.
    exists (j, stat). split; [done|]. by apply elem_of_map_to_list.
Qed.

Lemma key_lt_named (a b : nat * option string) :
  is_Some a.2 -> is_Some b.2 -> exists lt, key_lt a b = inr lt.
Proof.
  intros [x Hx] [y Hy]. unfold key_lt. rewrite Hx, Hy.
  destruct (a.1 =? b.1)%nat; by eexists.
Qed.

Lemma insert_by_key_named (x : nat * option string) (l : list (nat * option string)) :
  is_Some x.2 -> Forall (fun y => is_Some y.2) l -> exists r, insert_by_key x l = inr r.
Proof.
  intros Hx Hl. induction Hl as [|y l Hy Hl [r IH]]; simpl; [by eexists|].
  destruct (key_lt_named x y Hx Hy) as [[] ->]; [by eexists|].
  rewrite IH. by eexists.
Qed.

Lemma sorted_named (l : list (nat * option string)) :
  Forall (fun y => is_Some y.2) l -> exists s, sorted l = inr s.
Proof.
  intros Hl. induction Hl as [|x l Hx Hl [s IH]]; simpl; [by eexists|].
  rewrite IH. apply insert_by_key_named; [done|].
  apply Forall_forall. intros y Hy. apply (sorted_elem _ _ _ IH) in Hy.
  by eapply Forall_forall in Hl.
Qed.

Lemma named_row_countable (row : Row) : named_row row -> countable_row row.
Proof. intros [[journal Hj] Hs]. split; [by eexists|done]. Qed.

Lemma priority_list_returns (rows : list Row) :
  Forall named_row rows ->
  exists journals_by_priority,
    get_sorted_journals_by_priority rows = inr journals_by_priority.
Proof.
  intros Hrows. unfold get_sorted_journals_by_priority.
  destruct (stats_from_counts rows ∅) as (m & Hm & _).
  { eapply Forall_impl; [done|]. apply named_row_countable. }
  fold (get_journal_download_stats rows) in Hm. rewrite Hm.
  destruct (sorted_named (map (fun x : option string * JournalStat => (downloaded x.2, x.1))
                            (map_to_list m))) as [s ->]; [|by eexists].
  apply Forall_forall. intros y Hy.
  apply list_elem_of_fmap in Hy as ([j stat] & -> & Hy).
  apply elem_of_map_to_list in Hy. cbn.
  assert (Hdom : j ∈ dom m) by (apply elem_of_dom; by eexists).
  apply (stats_dom rows m Hm) in Hdom as (row & Hrow & Hj).
  eapply Forall_forall in Hrows; [|done].
  destruct Hrows as [[journal Hjournal] _]. unfold in_journal in Hj.
  rewrite Hjournal in Hj. injection Hj as <-. by eexists.
Qed.

(** X5.  On rows that all have the name of a journal and a status, the
    priority list is computed.  Whenever it is computed, it names every
    journal of the rows once, and no other; a journal comes before the next
    one if it has fewer rows marked [yes], or as many and a name that
    compares smaller. *)
Theorem get_sorted_journals_by_priority_charact (rows : list Row) :
  (Forall named_row rows ->
   exists journals_by_priority,
     get_sorted_journals_by_priority rows = inr journals_by_priority) /\
  (forall journals_by_priority,
     get_sorted_journals_by_priority rows = inr journals_by_priority ->
     NoDup journals_by_priority /\
     (forall j, j ∈ journals_by_priority <-> exists row, row ∈ rows /\ in_journal j row) /\
     exists journal_stats,
       get_journal_download_stats rows = inr journal_stats /\
       forall i j1 j2,
         journals_by_priority !! i = Some j1 ->
         journals_by_priority !! S i = Some j2 ->
         before (downloaded (stat_of journal_stats j1), j1)
                (downloaded (stat_of journal_stats j2), j2)).
Proof.
  split; [apply priority_list_returns|]. intros journals_by_priority.
  unfold get_sorted_journals_by_priority.
  destruct (get_journal_download_stats rows) as [e|journal_stats] eqn:Hstats; [done|].
  set (items := map (fun x : option string * JournalStat => (downloaded x.2, x.1))
                    (map_to_list journal_stats)).
  destruct (sorted items) as [e|s] eqn:Hsorted; [done|].
  intros [= <-].
  pose proof (sorted_perm _ _ Hsorted) as Hperm.
  assert (Hsnd : snd <$> items = (map_to_list journal_stats).*1).
  { subst items.
    change (snd <$> ((fun x : option string * JournalStat => (downloaded x.2, x.1))
                       <$> map_to_list journal_stats)
            = (map_to_list journal_stats).*1).
    rewrite <-list_fmap_compose. by apply list_fmap_ext. }
  assert (Hnd : NoDup items).
  { eapply (NoDup_fmap_1 snd). rewrite Hsnd. apply NoDup_fst_map_to_list. }
  assert (Hitem : forall n j, (n, j) ∈ s -> n = downloaded (stat_of journal_stats j)).
  { intros n j Hin. rewrite Hperm in Hin. subst items.
    apply list_elem_of_fmap in Hin as ([j' stat] & [= -> ->] & Hin).
    apply elem_of_map_to_list in Hin. unfold stat_of. by rewrite Hin. }
  split; [|split].
  - change (NoDup (snd <$> s)). rewrite Hperm, Hsnd. apply NoDup_fst_map_to_list.
  - apply priority_list_elem. unfold get_sorted_journals_by_priority.
    rewrite Hstats. fold items. by rewrite Hsorted.
  - exists journal_stats. split; [done|].
    intros i j1 j2 H1 H2.
    rewrite list_lookup_fmap in H1, H2.
    destruct (s !! i) as [[n1 j1']|] eqn:E1; [|done].
    destruct (s !! S i) as [[n2 j2']|] eqn:E2; [|done].
    simpl in H1, H2. injection H1 as ->. injection H2 as ->.
    rewrite <-(Hitem n1 j1) by (by eapply list_elem_of_lookup_2).
    rewrite <-(Hitem n2 j2) by (by eapply list_elem_of_lookup_2).
    eapply Sorted_lookup; [|done..].
    by eapply sorted_sorted.
Qed.

Lemma get_sorted_journals_by_priority_charact_witness :
  (exists journals_by_priority,
     get_sorted_journals_by_priority marked_rows = inr journals_by_priority) /\
  NoDup [Some "B"; Some "A"] /\
  (forall j, j ∈ [Some "B"; Some "A"] <-> exists row, row ∈ marked_rows /\ in_journal j row) /\
  exists journal_stats,
    get_journal_download_stats marked_rows = inr journal_stats /\
    forall i j1 j2,
      [Some "B"; Some "A"] !! i = Some j1 ->
      [Some "B"; Some "A"] !! S i = Some j2 ->
      before (downloaded (stat_of journal_stats j1), j1)
             (downloaded (stat_of journal_stats j2), j2).
Proof.
  split.
  - apply (proj1 (get_sorted_journals_by_priority_charact marked_rows)). by_computation.
  - apply (proj2 (get_sorted_journals_by_priority_charact marked_rows)). by vm_compute.
Defined.

(** ** Saving, and loading what was saved *)

Lemma dict_to_list_written (fieldnames : list string) (row : Row) :
  writable fieldnames row ->
  Csv.dict_to_list fieldnames row = inr (written_line fieldnames row).
Proof.
  intros Hw. unfold Csv.dict_to_list. fold (writable fieldnames row).
  by rewrite bool_decide_eq_true_2.
Qed.

Lemma dict_to_list_rejected (fieldnames : list string) (row : Row) :
  ~ writable fieldnames row -> Csv.dict_to_list fieldnames row = inl ValueError.
Proof.
  intros Hw. unfold Csv.dict_to_list. fold (writable fieldnames row).
  by rewrite bool_decide_eq_false_2.
Qed.

Lemma writerows_prefix (fieldnames : list string) (rows : list Row) :
  exists n,
    n <= length rows /\
    Forall (writable fieldnames) (take n rows) /\
    (forall row, rows !! n = Some row -> ~ writable fieldnames row) /\
    Csv.writerows fieldnames rows
    = (map (written_line fieldnames) (take n rows),
       if decide (n < length rows) then Some ValueError else None).
Proof.
  induction rows as [|row rows (n & Hn & Hall & Hbad & IH)].
  - exists 0. by repeat split.
  - destruct (decide (writable fieldnames row)) as [Hw|Hw].
    + exists (S n). simpl. rewrite dict_to_list_written by done.
      rewrite IH.
      split; [lia|]. split; [by constructor|]. split; [done|].
      f_equal; repeat case_decide; (done || lia).
    + exists 0. simpl. rewrite dict_to_list_rejected by done.
      split; [lia|]. split; [done|]. split; [by intros ? [= <-]|].
      done.
Qed.

(** X6.  [write_csv] writes the header and then the lines of the rows up
    to the first row [DictWriter] rejects (a row with surplus fields or with
    a key that is no column): the file holds the rows before it, the
    exception is [ValueError], and without such a row all the rows are
    written and nothing is raised. *)
Theorem write_csv_stops_at_rejected_row (rows : list Row) (fieldnames : list string) :
  exists n,
    n <= length rows /\
    Forall (writable fieldnames) (take n rows) /\
    (forall row, rows !! n = Some row -> ~ writable fieldnames row) /\
    write_csv rows fieldnames
    = (Table (fieldnames :: map (written_line fieldnames) (take n rows)),
       if decide (n < length rows) then Some ValueError else None).
Proof.
  destruct (writerows_prefix fieldnames rows) as (n & Hn & Hall & Hbad & Hw).
  exists n. unfold write_csv. by rewrite Hw.
Qed.

Lemma write_csv_stops_at_rejected_row_witness :
  exists n,
    n <= length surplus_rows /\
    Forall (writable sample_header) (take n surplus_rows) /\
    (forall row, surplus_rows !! n = Some row -> ~ writable sample_header row) /\
    write_csv surplus_rows sample_header
    = (Table (sample_header :: map (written_line sample_header) (take n surplus_rows)),
       if decide (n < length surplus_rows) then Some ValueError else None).
Proof.
  apply (write_csv_stops_at_rejected_row surplus_rows sample_header).
Defined.

Lemma dict_zip_app (keys values keys' values' : list string) d :
  length keys = length values ->
  Csv.dict_zip (keys ++ keys')%list (values ++ values')%list d
  = Csv.dict_zip keys' values' (Csv.dict_zip keys values d).
Proof.
  revert values d; induction keys as [|k keys IH]; intros [|v values] d Hlen;
    simpl in *; try done.
  apply IH. lia.
Qed.

Lemma reader_row_full (header line : list string) :
  length line = length header ->
  Csv.reader_row header line = mkRow (Csv.dict_zip header line ∅) None.
Proof.
  intros Hlen. unfold Csv.reader_row. rewrite Hlen.
  by rewrite (proj2 (Nat.ltb_ge _ _)) by lia.
Qed.

(** With the column added, a full line is the line with an empty status. *)
Lemma reader_row_with_column (header line : list string) :
  length line = length header ->
  setitem (Csv.reader_row header line) "downloaded" ""
  = Csv.reader_row (header ++ ["downloaded"])%list (line ++ [""])%list.
Proof.
  intros Hlen.
  rewrite (reader_row_full (header ++ ["downloaded"])%list (line ++ [""])%list)
    by (rewrite !length_app; simpl; lia).
  rewrite reader_row_full by done.
  by rewrite dict_zip_app.
Qed.

Lemma filter_not_blank (data : list (list string)) :
  filter (fun l => negb (Csv.is_blank l)) data = filter (fun l => not_blank l = true) data.
Proof.
  induction data as [|l data IH]; [done|].
  rewrite !filter_cons, IH. unfold not_blank. by destruct (Csv.is_blank l).
Qed.

Lemma full_lines (header : list string) (data : list (list string)) :
  Forall (fun line => line = [] \/ length line = length header) data ->
  Forall (fun line => length line = length header)
    (filter (fun l => not_blank l = true) data).
Proof.
  intros Hdata. apply Forall_forall. intros line Hline.
  apply list_elem_of_filter in Hline as [Hnb Hline].
  rewrite Forall_forall in Hdata. by destruct (Hdata line Hline) as [->|].
Qed.

Lemma NoDup_with_column (header : list string) :
  "downloaded" ∉ header -> NoDup header -> NoDup (header ++ ["downloaded"])%list.
Proof.
  intros Hnew Hnd. apply NoDup_app. split; [done|]. split; [|apply NoDup_singleton].
  intros x Hx Hx'. by apply list_elem_of_singleton in Hx' as ->.
Qed.

(** What is read from a table without the column, with lines that are
    blank or as long as the header. *)
Lemma read_csv_adds_column (header : list string) (data : list (list string)) :
  "downloaded" ∉ header ->
  Forall (fun line => line = [] \/ length line = length header) data ->
  read_csv_with_downloaded_column (Table (header :: data))
  = inr (map (Csv.reader_row (header ++ ["downloaded"])%list)
           (map (fun line => (line ++ [""])%list)
              (filter (fun l => not_blank l = true) data)),
         (header ++ ["downloaded"])%list).
Proof.
  intros Hnew Hdata. apply full_lines in Hdata.
  unfold read_csv_with_downloaded_column. simpl.
  rewrite bool_decide_eq_false_2 by done. rewrite filter_not_blank.
  f_equal. f_equal. rewrite !map_map. apply map_ext_in.
  intros line Hin. apply reader_row_with_column.
  rewrite Forall_forall in Hdata. by apply Hdata, list_elem_of_In.
Qed.

Lemma full_lines_with_column (header : list string) (lines : list (list string)) :
  Forall (fun line => length line = length header) lines ->
  Forall (fun line => length line = length (header ++ ["downloaded"])%list)
    (map (fun line => (line ++ [""])%list) lines).
Proof.
  intros Hlines. apply List.Forall_map. eapply Forall_impl; [exact Hlines|].
  intros line Hlen. cbv beta in Hlen |- *. rewrite !length_app. cbn [length]. lia.
Qed.

(** X7.  Loading a table that has no [downloaded] column, with a header
    without repeated names and lines that are blank or as long as the
    header, and saving it at once writes the header with [downloaded]
    appended and every line that is not blank with an empty field
    appended; loading the file written gives the same rows and columns as
    loading the original. *)
Theorem load_save_adds_column (header : list string) (data : list (list string)) :
  "downloaded" ∉ header ->
  NoDup header ->
  Forall (fun line => line = [] \/ length line = length header) data ->
  let saved :=
    Table ((header ++ ["downloaded"])%list
           :: map (fun line => (line ++ [""])%list) (filter (fun l => not_blank l = true) data)) in
  load_save (Table (header :: data)) = inr (saved, None) /\
  read_csv_with_downloaded_column saved
  = read_csv_with_downloaded_column (Table (header :: data)).
Proof.
  intros Hnew Hnd Hdata saved.
  pose proof (read_csv_adds_column header data Hnew Hdata) as Hread.
  pose proof (full_lines_with_column _ _ (full_lines _ _ Hdata)) as Hlines.
  set (lines := filter (fun l => not_blank l = true) data) in *.
  split.
  - unfold load_save. rewrite Hread. unfold write_csv.
    rewrite writerows_reader_rows; [done|by apply NoDup_with_column|done].
  - rewrite Hread. subst saved. fold lines.
    rewrite read_csv_with_column
      by (apply elem_of_app; right; apply list_elem_of_here).
    do 3 f_equal. clear.
    induction lines as [|line lines IH]; [done|].
    cbn [map]. rewrite filter_cons_True; [by rewrite IH|].
    by destruct line.
Qed.

Lemma load_save_adds_column_witness :
  let saved :=
    Table ((["journal"; "doi"] ++ ["downloaded"])%list
           :: map (fun line => (line ++ [""])%list)
                (filter (fun l => not_blank l = true) [["J"; "10.1/a"]; []; ["K"; "10.1/b"]])) in
  load_save (Table (["journal"; "doi"] :: [["J"; "10.1/a"]; []; ["K"; "10.1/b"]]))
  = inr (saved, None) /\
  read_csv_with_downloaded_column saved
  = read_csv_with_downloaded_column
      (Table (["journal"; "doi"] :: [["J"; "10.1/a"]; []; ["K"; "10.1/b"]])).
Proof.
  apply (load_save_adds_column ["journal"; "doi"] [["J"; "10.1/a"]; []; ["K"; "10.1/b"]]).
  - by_computation.
  - by_computation.
  - by_computation.
Defined.

(** ** The loop, once more *)

(** The file of a row is a file of the folder, whatever the identifier. *)
Lemma os_path_join_encoded (doi : string) :
  os_path_join PDF_FOLDER (encode_doi_for_filename doi ++ ".pdf")
  = "pdf/" ++ encode_doi_for_filename doi ++ ".pdf".
Proof.
  unfold os_path_join.
  destruct (Str.startswith (encode_doi_for_filename doi ++ ".pdf") "/") eqn:Hs; [|done].
  exfalso.
  assert (Hno : Str.mem "/" (encode_doi_for_filename doi) = false).
  { eapply mem_forall_chars; [apply encode_doi_for_filename_chars|done]. }
  destruct (encode_doi_for_filename doi) as [|c e]; [done|].
  rewrite append_cons in Hs.
  change (Ascii.eqb "/" c && Str.startswith (e ++ ".pdf") "" = true) in Hs.
  change (Ascii.eqb "/" c || Str.mem "/" e = false) in Hno.
  by destruct (Ascii.eqb "/" c).
Qed.

Lemma download_pdf_cases (env : Env) (files : Files) (url : option string)
    (output_path : string) (i : nat) :
  (download_pdf env files url output_path i = (false, files) /\
   is_pdf (urlopen env i url) && open_wb env output_path = false)
  \/
  (exists content,
     urlopen env i url = Body content /\
     Str.startswith content "%PDF" = true /\
     open_wb env output_path = true /\
     download_pdf env files url output_path i = (true, (output_path, content) :: files)).
Proof.
  unfold download_pdf, is_pdf.
  destruct (urlopen env i url) as [code reason|reason|what|content]; try by left.
  destruct (Str.startswith content "%PDF") eqn:Hpdf; [|by left].
  destruct (open_wb env output_path) eqn:Hopen; [|by left].
  right. exists content. by rewrite Hpdf.
Qed.

Section MoreLoopFacts.

Variable env : Env.
Variable fieldnames : list string.
Variable journals_by_priority : list (option string).

Local Abbreviation select := (select_journal journals_by_priority).
Local Abbreviation body_ := (body env fieldnames journals_by_priority).
Local Abbreviation run_ := (run env fieldnames journals_by_priority).

(** An iteration makes no attempt and leaves rows and files alone, or it
    is an attempt on row [i], with the address and the path taken from the
    row. *)
Lemma body_cases i st f st' :
  body_ i st = (f, st') ->
  (rows st' = rows st /\ pdf_files st' = pdf_files st /\ csv_file st' = csv_file st /\
   downloads_successful st' = downloads_successful st /\
   (trace st' = trace st \/ exists j, trace st' = AddingJournal j :: trace st))
  \/
  (exists (row : Row) (journal : option string) (doi : string) (url : option string)
          (ok : bool) (tr : list event),
     rows st !! i = Some row /\
     getitem row "journal" = inr journal /\
     getitem row "doi" = inr (Some doi) /\
     getitem row "oa_url" = inr url /\
     download_pdf env (pdf_files st) url
       ("pdf/" ++ encode_doi_for_filename doi ++ ".pdf") i = (ok, pdf_files st') /\
     rows st' = <[i := setitem row "downloaded" (if ok then "yes" else "unavailable")]>
                  (rows st) /\
     csv_file st' = (write_csv (rows st') fieldnames).1 /\
     f = match (write_csv (rows st') fieldnames).2 with
         | Some e => Raise e
         | None => Next
         end /\
     downloads_successful st' = (if ok then S (downloads_successful st)
                                 else downloads_successful st) /\
     trace st' = Download i url ("pdf/" ++ encode_doi_for_filename doi ++ ".pdf") ok :: tr /\
     (tr = trace st \/ exists j, tr = AddingJournal j :: trace st)).
Proof.
  assert (Hsel : forall journal,
    rows (select journal st) = rows st /\ pdf_files (select journal st) = pdf_files st /\
    csv_file (select journal st) = csv_file st /\
    downloads_successful (select journal st) = downloads_successful st /\
    (trace (select journal st) = trace st \/
     exists j, trace (select journal st) = AddingJournal j :: trace st)).
  { intros journal.
    destruct (select_journal_files journals_by_priority journal st) as [Hp Hc].
    rewrite select_journal_rows, select_journal_successful, Hp, Hc.
    repeat split.
    destruct (select_journal_cases journals_by_priority journal st)
      as [->|[(_ & _ & _ & ->)|(_ & _ & _ & _ & ->)]]; [by left|by left|].
    right. by eexists. }
  unfold body. intros H.
  destruct (rows st !! i) as [row|] eqn:Hrow.
  2:{ injection H as <- <-. left. repeat split. by left. }
  destruct (TOTAL_PDFS <=? downloads_successful st)%nat.
  { injection H as <- <-. left. repeat split. by left. }
  destruct (getitem row "journal") as [e|journal] eqn:Hj.
  { injection H as <- <-. left. repeat split. by left. }
  destruct (py_lower (status_of row)) as [e|status].
  { injection H as <- <-. left. repeat split. by left. }
  destruct (bool_decide (status ∈ ["yes"; "unavailable"])).
  { injection H as <- <-. left. repeat split. by left. }
  specialize (Hsel journal). destruct Hsel as (Hr & Hp & Hc & Hd & Ht).
  destruct (bool_decide (journal ∉ active_journals (select journal st))).
  { injection H as <- <-. by left. }
  destruct (PDFS_PER_JOURNAL <=? _)%nat.
  { injection H as <- <-. by left. }
  destruct (getitem row "doi") as [e|[doi|]] eqn:Hdoi.
  { injection H as <- <-. by left. }
  2:{ injection H as <- <-. by left. }
  destruct (getitem row "oa_url") as [e|url] eqn:Hurl.
  { injection H as <- <-. by left. }
  rewrite os_path_join_encoded, attempt_attempted in H.
  unfold attempted, count_attempt, read_downloads in H;
    cbn [rows trace downloads_successful pdf_files csv_file] in H.
  rewrite Hr, Hp, Hd in H.
  right. exists row, journal, doi, url.
  destruct (download_pdf env (pdf_files st) url
              ("pdf/" ++ encode_doi_for_filename doi ++ ".pdf") i) as [ok files] eqn:Hdl.
  exists ok, (trace (select journal st)).
  cbn [fst snd] in H. injection H as <- <-.
  cbn [rows trace downloads_successful pdf_files csv_file].
  by destruct ok.
Qed.

Lemma run_body_invariant (P : nat -> flow -> State -> Prop) rows0 csv pdfs :
  P 0 Next (init_state rows0 csv pdfs) ->
  (forall k st f st', P k Next st -> body_ k st = (f, st') -> P (S k) f st') ->
  (forall k f st, P k f st -> P (S k) f st) ->
  forall k, P k (run_ rows0 csv pdfs k).1 (run_ rows0 csv pdfs k).2.
Proof.
  intros H0 Hstep Hstay k. induction k as [|k IH]; [done|].
  rewrite run_S.
  destruct (run_ rows0 csv pdfs k) as [[] st]; cbn [fst snd] in *;
    [|by apply Hstay..].
  eapply Hstep; [done|]. apply surjective_pairing.
Qed.

End MoreLoopFacts.

(** ** What the trace of a run records *)

Lemma elem_of_trace_step (e : event) (tr tr0 : list event) :
  tr = tr0 \/ (exists j, tr = AddingJournal j :: tr0) ->
  e ∈ tr -> (exists j, e = AddingJournal j) \/ e ∈ tr0.
Proof.
  intros [->|[j ->]] Hin; [by right|].
  apply elem_of_cons in Hin as [->|Hin]; [left; by eexists|by right].
Qed.

(** X8.  Every call of [download_pdf] a run has made was for a row of the
    table, with the address of its [oa_url] column and the path
    [pdf/<encoded doi>.pdf]; the row now has the status [yes] if the call
    succeeded and [unavailable] if not, its other columns are as they were
    read, and after a success the file was written with the content the
    network delivered, which starts with [%PDF]. *)
Theorem run_downloads_recorded
    (env : Env) (fieldnames : list string) (journals_by_priority : list (option string))
    (rows0 : list Row) (csv : file_content) (pdfs : Files)
    (k i : nat) (url : option string) (output_path : string) (ok : bool) :
  let st := (run env fieldnames journals_by_priority rows0 csv pdfs k).2 in
  Download i url output_path ok ∈ trace st ->
  exists (row : Row) (doi : string),
    rows0 !! i = Some row /\
    getitem row "doi" = inr (Some doi) /\
    getitem row "oa_url" = inr url /\
    output_path = "pdf/" ++ encode_doi_for_filename doi ++ ".pdf" /\
    rows st !! i
    = Some (setitem row "downloaded" (if ok then "yes" else "unavailable")) /\
    (ok = true ->
     exists content,
       urlopen env i url = Body content /\
       Str.startswith content "%PDF" = true /\
       (output_path, content) ∈ pdf_files st).
Proof.
  intros st. subst st. revert i url output_path ok.
  enough (H :
    (forall i url output_path ok,
       Download i url output_path ok
         ∈ trace (run env fieldnames journals_by_priority rows0 csv pdfs k).2 ->
       i < k /\
       exists (row : Row) (doi : string),
         rows0 !! i = Some row /\
         getitem row "doi" = inr (Some doi) /\
         getitem row "oa_url" = inr url /\
         output_path = "pdf/" ++ encode_doi_for_filename doi ++ ".pdf" /\
         rows (run env fieldnames journals_by_priority rows0 csv pdfs k).2 !! i
         = Some (setitem row "downloaded" (if ok then "yes" else "unavailable")) /\
         (ok = true ->
          exists content,
            urlopen env i url = Body content /\
            Str.startswith content "%PDF" = true /\
            (output_path, content)
              ∈ pdf_files (run env fieldnames journals_by_priority rows0 csv pdfs k).2)) /\
    (forall i, k <= i ->
       rows (run env fieldnames journals_by_priority rows0 csv pdfs k).2 !! i = rows0 !! i)).
  { intros i url output_path ok Hin. by apply (proj1 H) in Hin as [_ Hin]. }
  apply (run_body_invariant env fieldnames journals_by_priority (fun k _ st =>
    (forall i url output_path ok,
       Download i url output_path ok ∈ trace st ->
       i < k /\
       exists (row : Row) (doi : string),
         rows0 !! i = Some row /\
         getitem row "doi" = inr (Some doi) /\
         getitem row "oa_url" = inr url /\
         output_path = "pdf/" ++ encode_doi_for_filename doi ++ ".pdf" /\
         rows st !! i
         = Some (setitem row "downloaded" (if ok then "yes" else "unavailable")) /\
         (ok = true ->
          exists content,
            urlopen env i url = Body content /\
            Str.startswith content "%PDF" = true /\
            (output_path, content) ∈ pdf_files st)) /\
    (forall i, k <= i -> rows st !! i = rows0 !! i))).
  - split; [|done]. intros i url output_path ok Hin. by apply elem_of_nil in Hin.
  - intros k' st f st' [Hrec Hrest] Hbody.
    destruct (body_cases _ _ _ _ _ _ _ Hbody)
      as [(Hr & Hp & _ & _ & Ht)
         |(row & journal & doi & url & ok & tr & Hrow & _ & Hdoi & Hurl & Hdl & Hr & _ & _
           & _ & Ht & Htr)].
    + rewrite Hr, Hp. split; [|intros i Hi; apply Hrest; lia].
      intros i url output_path ok Hin.
      destruct (elem_of_trace_step _ _ _ Ht Hin) as [[j Hj]|Hin']; [done|].
      destruct (Hrec _ _ _ _ Hin') as [Hlt Hex]. split; [lia|done].
    + split; [|intros i Hi; rewrite Hr, list_lookup_insert_ne by lia; apply Hrest; lia].
      assert (Hgrow : forall x, x ∈ pdf_files st -> x ∈ pdf_files st').
      { intros x Hx.
        destruct (download_pdf_cases env (pdf_files st) url
                    ("pdf/" ++ encode_doi_for_filename doi ++ ".pdf") k')
          as [[Hf _]|(content & _ & _ & _ & Hs)]; rewrite Hdl in *.
        - by injection Hf as _ ->.
        - injection Hs as _ ->. by apply list_elem_of_further. }
      intros i url' output_path ok' Hin. rewrite Ht in Hin.
      apply elem_of_cons in Hin as [Heq|Hin].
      * injection Heq as -> -> -> ->. split; [lia|].
        exists row, doi. rewrite <-Hrest by lia.
        split; [done|]. split; [done|]. split; [done|]. split; [done|].
        split.
        -- rewrite Hr. apply list_lookup_insert_eq. by eapply lookup_lt_Some.
        -- intros ->.
           destruct (download_pdf_cases env (pdf_files st) url
                       ("pdf/" ++ encode_doi_for_filename doi ++ ".pdf") k')
             as [[Hf _]|(content & Hbody' & Hpdf & _ & Hs)]; rewrite Hdl in *; [done|].
           injection Hs as ->. exists content.
           split; [done|]. split; [done|]. apply list_elem_of_here.
      * destruct (elem_of_trace_step _ _ _ Htr Hin) as [[j Hj]|Hin']; [done|].
        destruct (Hrec _ _ _ _ Hin') as (Hlt & row' & doi' & H1 & H2 & H3 & H4 & H5 & H6).
        split; [lia|]. exists row', doi'.
        split; [done|]. split; [done|]. split; [done|]. split; [done|].
        split; [by rewrite Hr, list_lookup_insert_ne by lia|].
        intros Hok. destruct (H6 Hok) as (content & ? & ? & ?).
        exists content. auto.
  - intros k' f st [Hrec Hrest]. split; [|intros i Hi; apply Hrest; lia].
    intros i url output_path ok Hin.
    destruct (Hrec _ _ _ _ Hin) as [Hlt Hex]. split; [lia|done].
Qed.

Lemma run_downloads_recorded_witness :
  exists (row : Row) (doi : string),
    three_articles !! 0 = Some row /\
    getitem row "doi" = inr (Some doi) /\
    getitem row "oa_url" = inr (Some "https://example.org/10.1/a1") /\
    "pdf/10.1__a1.pdf" = "pdf/" ++ encode_doi_for_filename doi ++ ".pdf" /\
    rows (run helpful_env sample_header [Some "A"] three_articles (Table []) [] 2).2 !! 0
    = Some (setitem row "downloaded" "yes") /\
    (true = true ->
     exists content,
       urlopen helpful_env 0 (Some "https://example.org/10.1/a1") = Body content /\
       Str.startswith content "%PDF" = true /\
       ("pdf/10.1__a1.pdf", content)
         ∈ pdf_files (run helpful_env sample_header [Some "A"] three_articles (Table []) [] 2).2).
Proof.
  apply (run_downloads_recorded helpful_env sample_header [Some "A"] three_articles
           (Table []) [] 2 0 (Some "https://example.org/10.1/a1") "pdf/10.1__a1.pdf" true).
  vm_compute. apply list_elem_of_further, list_elem_of_here.
Defined.

(** ** The table on disk during a run *)

Lemma attempted_rows_step (tr tr0 : list event) :
  tr = tr0 \/ (exists j, tr = AddingJournal j :: tr0) ->
  attempted_rows tr = attempted_rows tr0.
Proof. by intros [->|[j ->]]. Qed.

Lemma write_csv_all (fieldnames : list string) (rows : list Row) :
  Forall (writable fieldnames) rows ->
  write_csv rows fieldnames
  = (Table (fieldnames :: map (written_line fieldnames) rows), None).
Proof.
  intros Hall. unfold write_csv.
  destruct (writerows_prefix fieldnames rows) as (n & Hn & _ & Hbad & ->).
  destruct (decide (n < length rows)) as [Hlt|Hge].
  - destruct (lookup_lt_is_Some_2 rows n Hlt) as [row Hrow].
    destruct (Hbad row Hrow). by eapply Forall_lookup_1.
  - by rewrite take_ge by lia.
Qed.

(** X9.  On a table all of whose rows [DictWriter] accepts: until the
    first attempt of a run the table file and the rows are as they were
    read; from the first attempt on, the file holds, at every point of the
    run, the header and one line for each row with the status the row has
    at that point. *)
Theorem run_csv_in_sync
    (env : Env) (fieldnames : list string) (journals_by_priority : list (option string))
    (rows0 : list Row) (csv : file_content) (pdfs : Files) (k : nat) :
  "downloaded" ∈ fieldnames ->
  Forall (writable fieldnames) rows0 ->
  let st := (run env fieldnames journals_by_priority rows0 csv pdfs k).2 in
  (attempted_rows (trace st) = [] -> csv_file st = csv /\ rows st = rows0) /\
  (attempted_rows (trace st) <> [] ->
   csv_file st = Table (fieldnames :: map (written_line fieldnames) (rows st))).
Proof.
  intros Hfn Hall st. subst st.
  apply proj2 with (A := Forall (writable fieldnames)
    (rows (run env fieldnames journals_by_priority rows0 csv pdfs k).2)).
  apply (run_body_invariant env fieldnames journals_by_priority (fun _ _ st =>
    Forall (writable fieldnames) (rows st) /\
    (attempted_rows (trace st) = [] -> csv_file st = csv /\ rows st = rows0) /\
    (attempted_rows (trace st) <> [] ->
     csv_file st = Table (fieldnames :: map (written_line fieldnames) (rows st))))).
  - split; [done|]. split; [done|]. by intros [].
  - intros k' st f st' (Hw & Hnone & Hsome) Hbody.
    destruct (body_cases _ _ _ _ _ _ _ Hbody)
      as [(Hr & _ & Hc & _ & Ht)
         |(row & journal & doi & url & ok & tr & Hrow & _ & _ & _ & _ & Hr & Hc & _
           & _ & Ht & _)].
    + rewrite Hr, Hc, (attempted_rows_step _ _ Ht). done.
    + assert (Hw' : Forall (writable fieldnames) (rows st')).
      { rewrite Hr. apply Forall_insert; [done|].
        apply writable_setitem; [done|]. by eapply Forall_lookup_1. }
      split; [done|]. rewrite Ht. split; [done|]. intros _.
      by rewrite Hc, write_csv_all.
  - done.
Qed.

Lemma run_csv_in_sync_witness :
  let st := (run helpful_env sample_header [Some "A"] three_articles (Table []) [] 2).2 in
  (attempted_rows (trace st) = [] -> csv_file st = Table [] /\ rows st = three_articles) /\
  (attempted_rows (trace st) <> [] ->
   csv_file st = Table (sample_header :: map (written_line sample_header) (rows st))).
Proof.
  apply (run_csv_in_sync helpful_env sample_header [Some "A"] three_articles (Table []) [] 2).
  - by_computation.
  - by_computation.
Defined.

Lemma writable_of_setitem (fieldnames : list string) (row : Row) (v : string) :
  writable fieldnames (setitem row "downloaded" v) -> writable fieldnames row.
Proof.
  intros [Hrest Hdom]. split; [done|].
  unfold setitem in Hdom; cbn [fields] in Hdom. rewrite dom_insert in Hdom.
  etrans; [|exact Hdom]. apply union_subseteq_r.
Qed.

(** X10.  On a table with a row [DictWriter] rejects (a line longer than
    the header), a run makes one attempt at most: the save after the first
    attempt raises [ValueError], which ends the run, and leaves a table file
    with the header and fewer lines than the table had rows. *)
Theorem run_rejected_row_cuts_table
    (env : Env) (fieldnames : list string) (journals_by_priority : list (option string))
    (rows0 : list Row) (csv : file_content) (pdfs : Files) (k : nat) :
  ~ Forall (writable fieldnames) rows0 ->
  let r := run env fieldnames journals_by_priority rows0 csv pdfs k in
  (attempted_rows (trace r.2) = [] /\ csv_file r.2 = csv /\ rows r.2 = rows0)
  \/
  (exists i lines,
     attempted_rows (trace r.2) = [i] /\
     r.1 = Raise ValueError /\
     csv_file r.2 = Table (fieldnames :: lines) /\
     length lines < length rows0).
Proof.
  intros Hbad r. subst r.
  apply (run_body_invariant env fieldnames journals_by_priority (fun _ f st =>
    (attempted_rows (trace st) = [] /\ csv_file st = csv /\ rows st = rows0)
    \/
    (exists i lines,
       attempted_rows (trace st) = [i] /\
       f = Raise ValueError /\
       csv_file st = Table (fieldnames :: lines) /\
       length lines < length rows0))).
  - by left.
  - intros k' st f st' [(Hnone & Hcsv & Hrows)|(i & lines & _ & Hf & _)] Hbody; [|done].
    destruct (body_cases _ _ _ _ _ _ _ Hbody)
      as [(Hr & _ & Hc & _ & Ht)
         |(row & journal & doi & url & ok & tr & Hrow & _ & _ & _ & _ & Hr & Hc & Hf
           & _ & Ht & Htr)].
    + left. by rewrite Hr, Hc, (attempted_rows_step _ _ Ht).
    + right.
      assert (Hbad' : ~ Forall (writable fieldnames) (rows st')).
      { intros Hall. apply Hbad. rewrite <-Hrows.
        apply Forall_lookup_2. intros j row' Hj.
        destruct (decide (j = k')) as [->|Hne].
        - rewrite Hrow in Hj. injection Hj as <-.
          eapply writable_of_setitem, (Forall_lookup_1 _ _ k' _ Hall).
          rewrite Hr. apply list_lookup_insert_eq. by eapply lookup_lt_Some.
        - eapply (Forall_lookup_1 _ _ j _ Hall).
          by rewrite Hr, list_lookup_insert_ne. }
      unfold write_csv in Hc, Hf.
      destruct (writerows_prefix fieldnames (rows st')) as (n & Hn & Hall & _ & Hw).
      rewrite Hw in Hc, Hf. cbn [fst snd] in Hc, Hf.
      assert (Hlt : n < length (rows st')).
      { destruct (decide (n < length (rows st'))) as [|Hge]; [done|].
        destruct Hbad'. by rewrite take_ge in Hall by lia. }
      rewrite decide_True in Hf by done.
      exists k', (map (written_line fieldnames) (take n (rows st'))).
      split; [by rewrite Ht; cbn; rewrite (attempted_rows_step _ _ Htr), Hnone|].
      split; [done|]. split; [done|].
      rewrite length_map, length_take.
      rewrite Hr, length_insert, Hrows in Hlt. rewrite Hr, length_insert, Hrows. lia.
  - done.
Qed.

Lemma run_rejected_row_cuts_table_witness :
  let r := run helpful_env sample_header [Some "A"; Some "B"; Some "C"]
             surplus_rows (Table []) [] 3 in
  (attempted_rows (trace r.2) = [] /\ csv_file r.2 = Table [] /\ rows r.2 = surplus_rows)
  \/
  (exists i lines,
     attempted_rows (trace r.2) = [i] /\
     r.1 = Raise ValueError /\
     csv_file r.2 = Table (sample_header :: lines) /\
     length lines < length surplus_rows).
Proof.
  apply (run_rejected_row_cuts_table helpful_env sample_header
           [Some "A"; Some "B"; Some "C"] surplus_rows (Table []) [] 3).
  by_computation.
Defined.

(** ** The priority list in the loop *)

Lemma getitem_in_journal (row : Row) (journal : option string) :
  getitem row "journal" = inr journal <-> in_journal journal row.
Proof.
  unfold getitem, in_journal.
  destruct (fields row !! "journal"); split; congruence.
Qed.

Lemma select_journal_priority (jbp jbp' : list (option string))
    (journal : option string) (st : State) :
  (journal ∈ jbp <-> journal ∈ jbp') ->
  select_journal jbp journal st = select_journal jbp' journal st.
Proof.
  intros H. unfold select_journal.
  rewrite (bool_decide_ext _ _ H).
  by rewrite (bool_decide_ext (journal ∈ jbp /\ journal ∉ active_journals st)
                (journal ∈ jbp' /\ journal ∉ active_journals st)) by tauto.
Qed.

Lemma body_priority (env : Env) (fieldnames : list string)
    (jbp jbp' : list (option string)) (i : nat) (st : State) :
  (forall row journal,
     rows st !! i = Some row -> in_journal journal row ->
     (journal ∈ jbp <-> journal ∈ jbp')) ->
  body env fieldnames jbp i st = body env fieldnames jbp' i st.
Proof.
  intros H. unfold body.
  destruct (rows st !! i) as [row|]; [|done].
  destruct (_ <=? _)%nat; [done|].
  destruct (getitem row "journal") as [e|journal] eqn:Hj; [done|].
  apply getitem_in_journal in Hj.
  by rewrite (select_journal_priority jbp jbp' journal st) by eauto.
Qed.

(** X11.  The loop uses the priority list for one test only, whether it
    names the journal of the row, and the list of [main] names the journals
    of all rows: a run is the same, step by step, with any other list that
    names them, whatever its order. *)
Theorem priority_order_has_no_effect
    (env : Env) (fieldnames : list string) (rows0 : list Row)
    (csv : file_content) (pdfs : Files)
    (journals_by_priority other : list (option string)) (k : nat) :
  get_sorted_journals_by_priority rows0 = inr journals_by_priority ->
  (forall row journal, row ∈ rows0 -> in_journal journal row -> journal ∈ other) ->
  run env fieldnames journals_by_priority rows0 csv pdfs k
  = run env fieldnames other rows0 csv pdfs k.
Proof.
  intros Hprio Hother. induction k as [|k IH]; [done|].
  rewrite !run_S, IH.
  destruct (run env fieldnames other rows0 csv pdfs k) as [[] st] eqn:Hrun; try done.
  apply body_priority. intros row journal Hrow Hj.
  destruct (run_attempted env fieldnames other rows0 csv pdfs k) as (_ & _ & Hrest).
  rewrite Hrun in Hrest. cbn [snd] in Hrest. rewrite Hrest in Hrow by done.
  apply list_elem_of_lookup_2 in Hrow.
  split; intros _.
  - by eapply Hother.
  - apply (priority_list_elem _ _ Hprio). by exists row.
Qed.

Lemma priority_order_has_no_effect_witness :
  run helpful_env sample_header [Some "B"; Some "A"] marked_rows (Table []) [] 2
  = run helpful_env sample_header [Some "A"; Some "Z"; Some "B"] marked_rows (Table []) [] 2.
Proof.
  apply (priority_order_has_no_effect helpful_env sample_header marked_rows (Table []) []
           [Some "B"; Some "A"] [Some "A"; Some "Z"; Some "B"] 2).
  - by vm_compute.
  - intros row journal Hrow Hj.
    assert (Hall : Forall (fun row => fields row !! "journal"
                                      ∈ Some <$> [Some "A"; Some "Z"; Some "B"])
                     marked_rows) by by_computation.
    eapply Forall_forall in Hall; [|exact Hrow].
    unfold in_journal in Hj. rewrite Hj in Hall.
    apply list_elem_of_fmap in Hall as (journal' & Heq & Hin). by injection Heq as ->.
Defined.

(** ** Runs that download nothing *)

Lemma body_terminal (env : Env) (fieldnames : list string)
    (journals_by_priority : list (option string)) (i : nat) (st : State) :
  Forall terminal (rows st) ->
  (body env fieldnames journals_by_priority i st).2 = st.
Proof.
  intros Hall. unfold body.
  destruct (rows st !! i) as [row|] eqn:Hrow; [|done].
  destruct (_ <=? _)%nat; [done|].
  destruct (getitem row "journal") as [e|journal]; [done|].
  destruct (Forall_lookup_1 _ _ _ _ Hall Hrow) as (status & -> & Hin).
  by rewrite bool_decide_eq_true_2.
Qed.

Lemma loop_terminal (env : Env) (fieldnames : list string)
    (journals_by_priority : list (option string)) (n i : nat) (st : State) :
  Forall terminal (rows st) ->
  (loop env fieldnames journals_by_priority n i st).2 = st.
Proof.
  intros Hall. revert i. induction n as [|n IH]; intros i; [done|].
  simpl. pose proof (body_terminal env fieldnames journals_by_priority i st Hall) as Hb.
  destruct (body env fieldnames journals_by_priority i st) as [[] st1];
    cbn [snd] in Hb; subst st1; [apply IH|done..].
Qed.

Lemma sortable_empty : sortable ∅ = true.
Proof. unfold sortable. apply bool_decide_eq_true_2. left. set_solver. Qed.

(** X12.  On a table whose rows all have the status [yes] or
    [unavailable], in any case of the letters, [main] calls [download_pdf]
    for no row, writes neither the table nor a PDF file, and exits with
    status 1. *)
Theorem main_nothing_to_do
    (env : Env) (csv : file_content) (pdfs : Files)
    (rows0 : list Row) (fieldnames : list string) :
  read_csv_with_downloaded_column csv = inr (rows0, fieldnames) ->
  Forall terminal rows0 ->
  exit_code (main env csv pdfs).1 = 1 /\
  (main env csv pdfs).2 = init_state rows0 csv pdfs.
Proof.
  intros Hread Hall. unfold main. rewrite Hread.
  destruct (get_journal_download_stats rows0) as [e|journal_stats]; [done|].
  destruct (sortable (dom journal_stats)); [|done]. cbn [negb].
  destruct (get_sorted_journals_by_priority rows0) as [e|journals_by_priority]; [done|].
  pose proof (loop_terminal env fieldnames journals_by_priority (length rows0) 0
                (init_state rows0 csv pdfs) Hall) as Hloop.
  destruct (loop env fieldnames journals_by_priority (length rows0) 0
              (init_state rows0 csv pdfs)) as [f st].
  cbn [snd] in Hloop. subst st.
  destruct f; [| |done];
    unfold init_state at 1 2; cbn [active_journals downloads_successful];
    by rewrite sortable_empty.
Qed.

Lemma main_nothing_to_do_witness :
  exit_code (main helpful_env settled []).1 = 1 /\
  (main helpful_env settled []).2
  = init_state (Csv.reader_rows [sample_header; sample_line "A" "10.1/a1" "yes";
                                 sample_line "B" "10.1/b1" "Unavailable"])
      settled [].
Proof.
  apply (main_nothing_to_do helpful_env settled []
           (Csv.reader_rows [sample_header; sample_line "A" "10.1/a1" "yes";
                             sample_line "B" "10.1/b1" "Unavailable"])
           sample_header).
  - by vm_compute.
  - by_computation.
Defined.

(** X13.  With a network that answers no request with a PDF, or a file
    system on which no file can be opened for writing, [main] writes no PDF
    file and counts no success, every row it has called [download_pdf] for
    ends with the status [unavailable], and the exit status is 1. *)
Theorem main_without_pdfs (env : Env) (csv : file_content) (pdfs : Files) :
  (forall i url output_path,
     is_pdf (urlopen env i url) && open_wb env output_path = false) ->
  exit_code (main env csv pdfs).1 = 1 /\
  pdf_files (main env csv pdfs).2 = pdfs /\
  successes (trace (main env csv pdfs).2) = 0 /\
  (forall i, i ∈ attempted_rows (trace (main env csv pdfs).2) ->
     exists row, rows (main env csv pdfs).2 !! i = Some row /\
                 status_of row = Some "unavailable").
Proof.
  intros Hnone.
  assert (Hrun : forall fieldnames journals_by_priority rows0 k,
    let st := (run env fieldnames journals_by_priority rows0 csv pdfs k).2 in
    pdf_files st = pdfs /\ downloads_successful st = 0 /\ successes (trace st) = 0 /\
    (forall i, i ∈ attempted_rows (trace st) ->
       i < k /\ exists row, rows st !! i = Some row /\
                            status_of row = Some "unavailable")).
  { intros fieldnames journals_by_priority rows0 k st. subst st.
    apply (run_body_invariant env fieldnames journals_by_priority (fun k _ st =>
      pdf_files st = pdfs /\ downloads_successful st = 0 /\ successes (trace st) = 0 /\
      (forall i, i ∈ attempted_rows (trace st) ->
         i < k /\ exists row, rows st !! i = Some row /\
                              status_of row = Some "unavailable"))).
    - split; [done|]. split; [done|]. split; [done|].
      intros i Hi. by apply elem_of_nil in Hi.
    - intros k' st f st' (Hp & Hd & Hs & Hatt) Hbody.
      destruct (body_cases _ _ _ _ _ _ _ Hbody)
        as [(Hr & Hp' & _ & Hd' & Ht)
           |(row & journal & doi & url & ok & tr & Hrow & _ & _ & _ & Hdl & Hr & _ & _
             & Hd' & Ht & Htr)].
      + rewrite Hr, Hp', Hd', (attempted_rows_step _ _ Ht).
        split; [done|]. split; [done|].
        split; [by destruct Ht as [->|[j ->]]|].
        intros i Hi. destruct (Hatt i Hi) as [Hlt Hex]. split; [lia|done].
      + destruct (download_pdf_cases env (pdf_files st) url
                    ("pdf/" ++ encode_doi_for_filename doi ++ ".pdf") k')
          as [[Hf _]|(content & Hbody' & Hpdf & Hopen & _)].
        2:{ specialize (Hnone k' url ("pdf/" ++ encode_doi_for_filename doi ++ ".pdf")).
            rewrite Hbody', Hopen in Hnone. cbn [is_pdf] in Hnone.
            by rewrite Hpdf in Hnone. }
        rewrite Hdl in Hf. injection Hf as -> Hp'.
        rewrite Hp', Hd', Ht. cbn [successes attempted_rows].
        rewrite (attempted_rows_step _ _ Htr).
        split; [done|]. split; [done|].
        split; [by destruct Htr as [->|[j ->]]|].
        intros i Hi. apply elem_of_cons in Hi as [->|Hi].
        * split; [lia|]. eexists. split; [|apply status_of_setitem].
          rewrite Hr. apply list_lookup_insert_eq. by eapply lookup_lt_Some.
        * destruct (Hatt i Hi) as [Hlt Hex]. split; [lia|].
          by rewrite Hr, list_lookup_insert_ne by lia.
    - intros k' f st (Hp & Hd & Hs & Hatt).
      split; [done|]. split; [done|]. split; [done|].
      intros i Hi. destruct (Hatt i Hi) as [Hlt Hex]. split; [lia|done]. }
  destruct (main_cases env csv pdfs)
    as [(e & rows0 & ->)|(rows0 & fieldnames & journals_by_priority & _ & ->)].
  - cbn. repeat split; try done. intros i Hi. by apply elem_of_nil in Hi.
  - destruct (Hrun fieldnames journals_by_priority rows0 (length rows0))
      as (Hp & Hd & Hs & Hatt).
    cbn zeta. cbn [fst snd]. split; [|split; [done|split; [done|]]].
    + rewrite Hd.
      by destruct (run env fieldnames journals_by_priority rows0 csv pdfs (length rows0)).1.
    + intros i Hi. by destruct (Hatt i Hi).
Qed.

Lemma main_without_pdfs_witness :
  exit_code (main useless_env ten_articles []).1 = 1 /\
  pdf_files (main useless_env ten_articles []).2 = [] /\
  successes (trace (main useless_env ten_articles []).2) = 0 /\
  (forall i, i ∈ attempted_rows (trace (main useless_env ten_articles []).2) ->
     exists row, rows (main useless_env ten_articles []).2 !! i = Some row /\
                 status_of row = Some "unavailable").
Proof.
  apply (main_without_pdfs useless_env ten_articles []).
  intros i url output_path. reflexivity.
Defined.

(** ** The active journals and their downloads *)

Lemma select_journal_mono (journals_by_priority : list (option string))
    (journal : option string) (st : State) :
  active_journals st ⊆ active_journals (select_journal journals_by_priority journal st).
Proof.
  destruct (select_journal_cases journals_by_priority journal st)
    as [->|[(_ & _ & -> & _)|(_ & _ & _ & -> & _)]];
    [done|apply union_subseteq_r..].
Qed.

(** X14.  The active set only grows in the course of a run. *)
Theorem run_active_journals_grow
    (env : Env) (fieldnames : list string) (journals_by_priority : list (option string))
    (rows0 : list Row) (csv : file_content) (pdfs : Files) (k k' : nat) :
  k <= k' ->
  active_journals (run env fieldnames journals_by_priority rows0 csv pdfs k).2
  ⊆ active_journals (run env fieldnames journals_by_priority rows0 csv pdfs k').2.
Proof.
  induction 1 as [|k' _ IH]; [done|].
  etrans; [exact IH|].
  destruct (run_step env fieldnames journals_by_priority rows0 csv pdfs k')
    as [->|[_ Hit]]; [done|].
  destruct (iteration_active _ _ _ _ _ _ _ Hit) as [->|[journal ->]]; [done|].
  apply select_journal_mono.
Qed.

Lemma run_active_journals_grow_witness :
  active_journals (run helpful_env sample_header [Some "A"] three_articles (Table []) [] 0).2
  ⊆ active_journals (run helpful_env sample_header [Some "A"] three_articles (Table []) [] 1).2.
Proof.
  apply (run_active_journals_grow helpful_env sample_header [Some "A"] three_articles
           (Table []) [] 0 1).
  lia.
Defined.

(** A journal with a download is active. *)
Lemma iteration_counted_active (env : Env) (fieldnames : list string)
    (journals_by_priority : list (option string)) (k : nat) (st st' : State) (f : flow) :
  (forall j, 0 < count_of (downloads_per_journal st) j -> j ∈ active_journals st) ->
  iteration env fieldnames journals_by_priority k st f st' ->
  forall j, 0 < count_of (downloads_per_journal st') j -> j ∈ active_journals st'.
Proof.
  intros Hinv Hit.
  assert (Hsel : forall journal j,
    0 < count_of (downloads_per_journal st) j ->
    j ∈ active_journals (select_journal journals_by_priority journal st)).
  { intros journal j Hj. by apply select_journal_mono, Hinv. }
  destruct Hit as [Hb|row e Hrow Hds|row Hrow Hds Hterm|row journal Hrow Hds Hj Hnt Hact
                  |row journal Hrow Hds Hj Hnt Hact Hq|row journal e Hrow Hds Hj Hnt Hact Hq
                  |row journal url output_path ok files Hrow Hds Hj Hnt Hact Hq Hdl];
    try done; intros j.
  - rewrite select_journal_downloads. apply Hsel.
  - rewrite read_downloads_count, select_journal_downloads. apply Hsel.
  - unfold count_attempt; cbn [downloads_per_journal active_journals].
    rewrite read_downloads_count, select_journal_downloads. apply Hsel.
  - unfold attempted, count_attempt; cbn [snd downloads_per_journal active_journals].
    destruct ok.
    + rewrite count_of_insert. case_decide as Heq; [by subst|].
      rewrite read_downloads_count, select_journal_downloads. apply Hsel.
    + rewrite read_downloads_count, select_journal_downloads. apply Hsel.
Qed.

Lemma size_remove (A : gset (option string)) (j : option string) :
  j ∈ A -> size A = S (size (A ∖ {[j]})).
Proof.
  intros Hin.
  rewrite (union_difference_L {[j]} A) at 1 by (by apply singleton_subseteq_l).
  rewrite size_union by apply disjoint_difference_r1, reflexivity.
  by rewrite size_singleton.
Qed.

(** Counts of at most [c] each, positive for members of [A] only, add up
    to [c * size A] at most, and to that only if every member has [c]. *)
Lemma sum_values_bound (m : gmap (option string) nat) (A : gset (option string)) (c : nat) :
  (forall j, count_of m j <= c) ->
  (forall j, 0 < count_of m j -> j ∈ A) ->
  sum_values m <= c * size A /\
  (sum_values m = c * size A -> forall j, j ∈ A -> count_of m j = c).
Proof.
  revert A. induction m as [|k v m Hfresh IH] using map_ind; intros A Hle Hpos.
  - rewrite sum_values_empty. split; [lia|].
    intros Hzero j Hj. unfold count_of. rewrite lookup_empty. cbn.
    rewrite (size_remove A j Hj) in Hzero. lia.
  - rewrite sum_values_insert_fresh by done.
    assert (Hk : count_of m k = 0) by (unfold count_of; by rewrite Hfresh).
    assert (Hv : v <= c).
    { specialize (Hle k). rewrite count_of_insert in Hle. by rewrite decide_True in Hle. }
    assert (Hle' : forall j, count_of m j <= c).
    { intros j. specialize (Hle j). rewrite count_of_insert in Hle.
      case_decide; [subst; lia|done]. }
    destruct (decide (k ∈ A)) as [Hin|Hout].
    + destruct (IH (A ∖ {[k]}) Hle') as [Hsum Heq].
      { intros j Hj. assert (j <> k) by (intros ->; lia).
        specialize (Hpos j). rewrite count_of_insert, decide_False in Hpos by done.
        apply elem_of_difference. split; [auto|]. by rewrite elem_of_singleton. }
      rewrite (size_remove A k Hin). split; [lia|].
      intros Htot j Hj. rewrite count_of_insert. case_decide as Hjk; [lia|].
      apply Heq; [lia|]. apply elem_of_difference. split; [done|].
      by rewrite elem_of_singleton.
    + assert (v = 0) as ->.
      { destruct v; [done|]. destruct Hout. apply Hpos.
        rewrite count_of_insert, decide_True by done. lia. }
      destruct (IH A Hle') as [Hsum Heq].
      { intros j Hj. assert (j <> k) by (intros ->; lia).
        specialize (Hpos j). rewrite count_of_insert, decide_False in Hpos by done.
        auto. }
      split; [lia|].
      intros Htot j Hj. rewrite count_of_insert.
      rewrite decide_False by (by intros ->). apply Heq; [lia|done].
Qed.

(** X15.  When [main] returns 0, exactly [NUM_JOURNALS] journals are
    active, each of them has exactly [PDFS_PER_JOURNAL] successful
    downloads, no other journal has one, and [download_pdf] has succeeded
    [TOTAL_PDFS] times. *)
Theorem main_success_two_per_journal
    (env : Env) (csv : file_content) (pdfs : Files) (st : State) :
  main env csv pdfs = (Returned 0, st) ->
  size (active_journals st) = NUM_JOURNALS /\
  (forall j, j ∈ active_journals st ->
     count_of (downloads_per_journal st) j = PDFS_PER_JOURNAL) /\
  (forall j, j ∉ active_journals st -> count_of (downloads_per_journal st) j = 0) /\
  successes (trace st) = TOTAL_PDFS.
Proof.
  intros Hmain.
  destruct (main_cases env csv pdfs)
    as [(e & rows0 & Hm)|(rows0 & fieldnames & journals_by_priority & Hread & Hm)];
    rewrite Hm in Hmain; [done|].
  cbn zeta in Hmain. injection Hmain as Hout <-.
  set (r := run env fieldnames journals_by_priority rows0 csv pdfs (length rows0)) in *.
  assert (Hds : TOTAL_PDFS <= downloads_successful r.2).
  { destruct r.1; try done;
      destruct (downloads_successful r.2 <? TOTAL_PDFS)%nat eqn:E; try done;
      by apply Nat.ltb_ge in E. }
  destruct (run_exit env fieldnames journals_by_priority rows0 csv pdfs (length rows0)
              (read_csv_fieldnames _ _ _ Hread)) as (Hsucc & Hmax & _).
  destruct (run_balanced env fieldnames journals_by_priority rows0 csv pdfs (length rows0))
    as (Hsum & Hsize & _).
  fold r in Hsucc, Hmax, Hsum, Hsize.
  assert (Hactive : forall j,
    0 < count_of (downloads_per_journal r.2) j -> j ∈ active_journals r.2).
  { apply (run_state_invariant env fieldnames journals_by_priority (fun st =>
      forall j, 0 < count_of (downloads_per_journal st) j -> j ∈ active_journals st)).
    - intros j. unfold init_state, count_of; cbn [downloads_per_journal].
      rewrite lookup_empty. cbn. lia.
    - intros k st f st' Hinv Hit. by eapply iteration_counted_active. }
  destruct (sum_values_bound (downloads_per_journal r.2) (active_journals r.2)
              PDFS_PER_JOURNAL) as [Hbound Heq].
  { intros j. apply run_quota. }
  { exact Hactive. }
  unfold TOTAL_PDFS, PDFS_PER_JOURNAL, NUM_JOURNALS in *.
  assert (Hfull : size (active_journals r.2) = 5) by lia.
  split; [done|]. split; [|split].
  - apply Heq. rewrite Hfull. lia.
  - intros j Hj. destruct (count_of (downloads_per_journal r.2) j) eqn:E; [done|].
    destruct Hj. apply Hactive. lia.
  - lia.
Qed.

Lemma main_success_two_per_journal_witness :
  size (active_journals (main helpful_env ten_articles []).2) = NUM_JOURNALS /\
  (forall j, j ∈ active_journals (main helpful_env ten_articles []).2 ->
     count_of (downloads_per_journal (main helpful_env ten_articles []).2) j
     = PDFS_PER_JOURNAL) /\
  (forall j, j ∉ active_journals (main helpful_env ten_articles []).2 ->
     count_of (downloads_per_journal (main helpful_env ten_articles []).2) j = 0) /\
  successes (trace (main helpful_env ten_articles []).2) = TOTAL_PDFS.
Proof.
  apply (main_success_two_per_journal helpful_env ten_articles []).
  replace (Returned 0) with (main helpful_env ten_articles []).1 by (by vm_compute).
  apply surjective_pairing.
Defined.

(** ** Tables that lack a column *)

Lemma reader_row_missing (header line : list string) (key : string) :
  key ∉ header -> fields (Csv.reader_row header line) !! key = None.
Proof.
  intros Hkey. unfold Csv.reader_row.
  destruct (length header <? length line)%nat; cbn [fields].
  { by rewrite dict_zip_lookup_notin. }
  destruct (length line <? length header)%nat; cbn [fields].
  2:{ by rewrite dict_zip_lookup_notin. }
  rewrite fill_restval_lookup_notin; [by rewrite dict_zip_lookup_notin|].
  intros Hin. apply Hkey.
  apply list_elem_of_lookup in Hin as [j Hj]. rewrite lookup_drop in Hj.
  by eapply list_elem_of_lookup_2.
Qed.

Lemma read_csv_missing (header : list string) (data : list (list string))
    (rows0 : list Row) (fieldnames : list string) (key : string) (row : Row) :
  read_csv_with_downloaded_column (Table (header :: data)) = inr (rows0, fieldnames) ->
  key ∉ header -> key <> "downloaded" -> row ∈ rows0 ->
  getitem row key = inl (KeyError key).
Proof.
  unfold read_csv_with_downloaded_column. cbn [Csv.fieldnames head Csv.reader_rows].
  intros [= <- _] Hkey Hne Hrow.
  apply list_elem_of_fmap in Hrow as (row' & -> & Hrow).
  apply list_elem_of_fmap in Hrow as (line & -> & _).
  unfold getitem.
  destruct (bool_decide ("downloaded" ∈ header)).
  - by rewrite reader_row_missing.
  - unfold setitem; cbn [fields].
    rewrite lookup_insert_ne by done. by rewrite reader_row_missing.
Qed.

Lemma trace_nil (tr : list event) :
  attempted_rows tr = [] -> overflow_journals tr = [] -> tr = [].
Proof. by destruct tr as [|[] tr]. Qed.

(** X16.  On a table whose header lacks one of the columns [journal],
    [doi] and [oa_url], [main] calls [download_pdf] for no row, leaves the
    table file and the PDF files as they are, and exits with status 1. *)
Theorem main_missing_column
    (env : Env) (header : list string) (data : list (list string)) (pdfs : Files)
    (key : string) :
  key ∈ ["journal"; "doi"; "oa_url"] ->
  key ∉ header ->
  let r := main env (Table (header :: data)) pdfs in
  exit_code r.1 = 1 /\
  trace r.2 = [] /\
  csv_file r.2 = Table (header :: data) /\
  pdf_files r.2 = pdfs.
Proof.
  intros Hkey Hmissing r. subst r.
  assert (Hne : key <> "downloaded").
  { intros ->. repeat (apply elem_of_cons in Hkey as [Hkey|Hkey]; [done|]).
    by apply elem_of_nil in Hkey. }
  destruct (main_cases env (Table (header :: data)) pdfs)
    as [(e & rows0 & ->)|(rows0 & fieldnames & journals_by_priority & Hread & ->)];
    [done|].
  cbn zeta. cbn [fst snd].
  set (csv := Table (header :: data)) in *.
  assert (Hrun : forall k,
    let st := (run env fieldnames journals_by_priority rows0 csv pdfs k).2 in
    attempted_rows (trace st) = [] /\ csv_file st = csv /\ pdf_files st = pdfs /\
    rows st = rows0 /\ downloads_successful st = 0).
  { apply (run_body_invariant env fieldnames journals_by_priority (fun _ _ st =>
      attempted_rows (trace st) = [] /\ csv_file st = csv /\ pdf_files st = pdfs /\
      rows st = rows0 /\ downloads_successful st = 0)); [done| |done].
    intros k st f st' (Ha & Hc & Hp & Hr & Hd) Hbody.
    destruct (body_cases _ _ _ _ _ _ _ Hbody)
      as [(Hr' & Hp' & Hc' & Hd' & Ht)
         |(row & journal & doi & url & ok & tr & Hrow & Hj & Hdoi & Hurl & _)].
    - by rewrite Hr', Hp', Hc', Hd', (attempted_rows_step _ _ Ht).
    - rewrite Hr in Hrow. apply list_elem_of_lookup_2 in Hrow.
      pose proof (read_csv_missing _ _ _ _ key row Hread Hmissing Hne Hrow) as Hk.
      repeat (apply elem_of_cons in Hkey as [->|Hkey]; [congruence|]).
      by apply elem_of_nil in Hkey. }
  destruct (Hrun (length rows0)) as (Ha & Hc & Hp & _ & Hd).
  destruct (run_balanced env fieldnames journals_by_priority rows0 csv pdfs (length rows0))
    as (_ & _ & Ho).
  split; [|by rewrite (trace_nil _ Ha Ho)].
  rewrite Hd.
  by destruct (run env fieldnames journals_by_priority rows0 csv pdfs (length rows0)).1.
Qed.

Lemma main_missing_column_witness :
  let r := main helpful_env (Table (["journal"; "oa_url"] :: [["J"; "https://example.org/a"]])) [] in
  exit_code r.1 = 1 /\
  trace r.2 = [] /\
  csv_file r.2 = Table (["journal"; "oa_url"] :: [["J"; "https://example.org/a"]]) /\
  pdf_files r.2 = [].
Proof.
  apply (main_missing_column helpful_env ["journal"; "oa_url"]
           [["J"; "https://example.org/a"]] [] "doi").
  - by_computation.
  - by_computation.
Defined.

(** ** What a run leaves alone *)

Lemma successes_step (tr tr0 : list event) :
  tr = tr0 \/ (exists j, tr = AddingJournal j :: tr0) ->
  successes tr = successes tr0.
Proof. by intros [->|[j ->]]. Qed.

(** X17.  A run neither adds nor removes a row, and a row for which it
    has not called [download_pdf] is as it was read; no PDF file that was
    there before the run is deleted, and one file is written for every
    successful download (onto a path that exists already, the write
    replaces the file: the later entry of the list hides the earlier). *)
Theorem run_leaves_the_rest_alone
    (env : Env) (fieldnames : list string) (journals_by_priority : list (option string))
    (rows0 : list Row) (csv : file_content) (pdfs : Files) (k : nat) :
  let st := (run env fieldnames journals_by_priority rows0 csv pdfs k).2 in
  length (rows st) = length rows0 /\
  (forall i, i ∉ attempted_rows (trace st) -> rows st !! i = rows0 !! i) /\
  exists written,
    pdf_files st = (written ++ pdfs)%list /\ length written = successes (trace st).
Proof.
  apply (run_body_invariant env fieldnames journals_by_priority (fun _ _ st =>
    length (rows st) = length rows0 /\
    (forall i, i ∉ attempted_rows (trace st) -> rows st !! i = rows0 !! i) /\
    exists written,
      pdf_files st = (written ++ pdfs)%list /\ length written = successes (trace st))).
  - split; [done|]. split; [done|]. by exists [].
  - intros k' st f st' (Hlen & Hrest & written & Hfiles & Hcount) Hbody.
    destruct (body_cases _ _ _ _ _ _ _ Hbody)
      as [(Hr & Hp & _ & _ & Ht)
         |(row & journal & doi & url & ok & tr & Hrow & _ & _ & _ & Hdl & Hr & _ & _
           & _ & Ht & Htr)].
    + rewrite Hr, Hp, (attempted_rows_step _ _ Ht), (successes_step _ _ Ht).
      split; [done|]. split; [done|]. by exists written.
    + rewrite Hr, length_insert, Ht. cbn [attempted_rows successes].
      rewrite (attempted_rows_step _ _ Htr), (successes_step _ _ Htr).
      split; [done|]. split.
      * intros i Hi. apply not_elem_of_cons in Hi as [Hne Hi].
        rewrite list_lookup_insert_ne by done. by apply Hrest.
      * destruct (download_pdf_cases env (pdf_files st) url
                    ("pdf/" ++ encode_doi_for_filename doi ++ ".pdf") k')
          as [[Hf _]|(content & _ & _ & _ & Hs)]; rewrite Hdl in *.
        -- injection Hf as -> ->. by exists written.
        -- injection Hs as -> ->.
           exists (("pdf/" ++ encode_doi_for_filename doi ++ ".pdf", content) :: written).
           rewrite Hfiles. cbn [length]. by rewrite Hcount.
  - done.
Qed.

Lemma run_leaves_the_rest_alone_witness :
  let st := (run helpful_env sample_header [Some "A"] three_articles (Table []) [] 2).2 in
  length (rows st) = length three_articles /\
  (forall i, i ∉ attempted_rows (trace st) -> rows st !! i = three_articles !! i) /\
  exists written,
    pdf_files st = (written ++ [])%list /\ length written = successes (trace st).
Proof.
  apply (run_leaves_the_rest_alone helpful_env sample_header [Some "A"] three_articles
           (Table []) [] 2).
Defined.

(** ** Loading the table a run has saved *)

Lemma full_reader_row (header line : list string) :
  NoDup header -> length line = length header ->
  full_row header (Csv.reader_row header line).
Proof.
  intros Hnd Hlen. split; [by rewrite reader_row_full|]. split.
  - intros key Hkey. apply list_elem_of_lookup in Hkey as [j Hj].
    destruct (lookup_lt_is_Some_2 line j) as [v Hv].
    { rewrite Hlen. by eapply lookup_lt_Some. }
    exists v. by eapply reader_row_lookup.
  - intros key Hkey. rewrite reader_row_full by done. cbn [fields].
    by rewrite dict_zip_lookup_notin.
Qed.

Lemma full_row_setitem (fieldnames : list string) (row : Row) (v : string) :
  "downloaded" ∈ fieldnames ->
  full_row fieldnames row -> full_row fieldnames (setitem row "downloaded" v).
Proof.
  intros Hfn (Hrest & Hin & Hout). split; [done|]. unfold setitem; cbn [fields]. split.
  - intros key Hkey. destruct (decide (key = "downloaded")) as [->|Hne].
    + exists v. apply lookup_insert_eq.
    + rewrite lookup_insert_ne by done. by apply Hin.
  - intros key Hkey. rewrite lookup_insert_ne; [by apply Hout|]. by intros <-.
Qed.

Lemma full_row_writable (fieldnames : list string) (row : Row) :
  full_row fieldnames row -> writable fieldnames row.
Proof.
  intros (Hrest & _ & Hout). split; [done|].
  intros key Hkey. apply elem_of_list_to_set.
  destruct (decide (key ∈ fieldnames)) as [|Hnot]; [done|].
  apply elem_of_dom in Hkey as [v Hv]. by rewrite Hout in Hv.
Qed.

(** Reading the line written for a full row gives the row back. *)
Lemma reader_row_written (fieldnames : list string) (row : Row) :
  NoDup fieldnames -> full_row fieldnames row ->
  Csv.reader_row fieldnames (written_line fieldnames row) = row.
Proof.
  intros Hnd (Hrest & Hin & Hout).
  rewrite reader_row_full by apply length_map.
  destruct row as [f r]. cbn [restkey fields] in *. subst r. f_equal.
  apply map_eq. intros key.
  destruct (decide (key ∈ fieldnames)) as [Hkey|Hkey].
  - destruct (Hin key Hkey) as [v Hv]. rewrite Hv.
    apply list_elem_of_lookup in Hkey as [j Hj].
    apply (dict_zip_lookup _ _ _ j); [done|done|].
    unfold written_line.
    change (((fun key => default "" (get (mkRow f None) key (Some ""))) <$> fieldnames) !! j
            = Some v).
    rewrite list_lookup_fmap, Hj. unfold get; cbn [fields fmap option_fmap option_map].
    by rewrite Hv.
  - by rewrite dict_zip_lookup_notin, Hout.
Qed.

Lemma read_written (fieldnames : list string) (rows : list Row) :
  "downloaded" ∈ fieldnames -> NoDup fieldnames ->
  Forall (full_row fieldnames) rows ->
  read_csv_with_downloaded_column
    (Table (fieldnames :: map (written_line fieldnames) rows))
  = inr (rows, fieldnames).
Proof.
  intros Hfn Hnd Hrows. rewrite read_csv_with_column by done. do 2 f_equal.
  induction Hrows as [|row rows Hrow Hrows IH]; [done|].
  cbn [map]. rewrite filter_cons_True.
  - cbn [map]. by rewrite IH, reader_row_written.
  - unfold written_line. destruct fieldnames; [|done]. by apply elem_of_nil in Hfn.
Qed.

(** The rows loaded from a table with lines that are blank or as long as
    the header are full rows. *)
Lemma read_csv_full_rows (header : list string) (data : list (list string))
    (rows0 : list Row) (fieldnames : list string) :
  NoDup header ->
  Forall (fun line => line = [] \/ length line = length header) data ->
  read_csv_with_downloaded_column (Table (header :: data)) = inr (rows0, fieldnames) ->
  NoDup fieldnames /\ Forall (full_row fieldnames) rows0.
Proof.
  intros Hnd Hdata Hread.
  destruct (decide ("downloaded" ∈ header)) as [Hin|Hnew].
  - rewrite read_csv_with_column in Hread by done. injection Hread as <- <-.
    split; [done|]. apply List.Forall_map.
    eapply Forall_impl; [by apply full_lines|].
    intros line Hlen. by apply full_reader_row.
  - rewrite read_csv_adds_column in Hread by done. injection Hread as <- <-.
    pose proof (NoDup_with_column header Hnew Hnd) as Hnd'.
    split; [done|]. apply List.Forall_map.
    eapply Forall_impl; [by apply full_lines_with_column, full_lines|].
    intros line Hlen. by apply full_reader_row.
Qed.

(** X18.  For a table with a header without repeated names and lines that
    are blank or as long as the header: at every point of the run on what
    was loaded from it, loading the table file again gives the rows as the
    run has them at that point, with the same columns.  What a run has
    recorded is what the next run starts from. *)
Theorem run_saved_table_reloads
    (env : Env) (journals_by_priority : list (option string))
    (header : list string) (data : list (list string)) (pdfs : Files)
    (rows0 : list Row) (fieldnames : list string) (k : nat) :
  NoDup header ->
  Forall (fun line => line = [] \/ length line = length header) data ->
  read_csv_with_downloaded_column (Table (header :: data)) = inr (rows0, fieldnames) ->
  let st := (run env fieldnames journals_by_priority rows0
               (Table (header :: data)) pdfs k).2 in
  read_csv_with_downloaded_column (csv_file st) = inr (rows st, fieldnames).
Proof.
  intros Hnd Hdata Hread st. subst st.
  destruct (read_csv_full_rows _ _ _ _ Hnd Hdata Hread) as [Hnd' Hfull].
  pose proof (read_csv_fieldnames _ _ _ Hread) as Hfn.
  apply proj2 with (A := Forall (full_row fieldnames)
    (rows (run env fieldnames journals_by_priority rows0 (Table (header :: data)) pdfs k).2)).
  apply (run_body_invariant env fieldnames journals_by_priority (fun _ _ st =>
    Forall (full_row fieldnames) (rows st) /\
    read_csv_with_downloaded_column (csv_file st) = inr (rows st, fieldnames)));
    [done| |done].
  intros k' st f st' [Hrows Hfile] Hbody.
  destruct (body_cases _ _ _ _ _ _ _ Hbody)
    as [(Hr & _ & Hc & _)
       |(row & journal & doi & url & ok & tr & Hrow & _ & _ & _ & _ & Hr & Hc & _)].
  - by rewrite Hr, Hc.
  - assert (Hrows' : Forall (full_row fieldnames) (rows st')).
    { rewrite Hr. apply Forall_insert; [done|].
      apply full_row_setitem; [done|]. by eapply Forall_lookup_1. }
    split; [done|]. rewrite Hc, write_csv_all.
    + by apply read_written.
    + eapply Forall_impl; [exact Hrows'|]. apply full_row_writable.
Qed.

Lemma run_saved_table_reloads_witness :
  let st := (run helpful_env sample_header [Some "B"; Some "A"] marked_rows
               marked_by_hand [] 2).2 in
  read_csv_with_downloaded_column (csv_file st) = inr (rows st, sample_header).
Proof.
  apply (run_saved_table_reloads helpful_env [Some "B"; Some "A"] sample_header
           [sample_line "A" "10.1/a1" "YES"; sample_line "B" "10.1/b1" ""] []
           marked_rows sample_header 2).
  - by_computation.
  - by_computation.
  - by vm_compute.
Defined.
